(** * zoekt-sourcegraph-indexserver: the debug commands ([debug.go])

    A shallow embedding of [cmd/zoekt-sourcegraph-indexserver/debug.go] and of
    the pieces of Go's standard library the file leans on ([strconv.Atoi],
    [strings.TrimSpace], the first checks of [url.Parse] and
    [http.NewRequestWithContext]).

    Conventions.
    - A Go [int], [int64], [uint32], [uint64] is a [Z]; every operation that
      can leave the type's range wraps explicitly.
    - A Go [string] is a [string] of bytes.
    - A Go [error] is an [option goError]; [nil] is [None].
    - The effects of a command (calls into the rest of the package, logging,
      HTTP, stdout) are the nodes of a [prog] tree; [run] threads a world
      through a tree against a handler and records the calls made.

    The definitions come first, the facts about them after. *)

From Stdlib Require Import ZArith String Ascii List Bool Lia Sorted.
From stdpp Require Import base option gmap strings list fin_maps.
Import ListNotations.
Local Open Scope string_scope.
Local Open Scope Z_scope.

(** ** Go values *)

(** Sentinels first, then the error structs that occur in [debug.go] and in
    the library functions it calls. *)
Inductive goError : Type :=
| ErrSyntax                                   (* strconv.ErrSyntax *)
| ErrRange                                    (* strconv.ErrRange *)
| NumError (Func Num : string) (Err : goError)  (* *strconv.NumError *)
| urlError (Op URL : string) (Err : goError)    (* *url.Error *)
| New (text : string)                         (* errors.New(text) *)
| Errorf (format : string) (operands : list operand)  (* fmt.Errorf(format, operands...) *)
with operand : Type :=
| opString (s : string)
| opError (e : goError).

Definition error : Type := option goError.
Definition nil : error := None.

Definition wrapInt64 (z : Z) : Z := (z + 2^63) mod 2^64 - 2^63.
Definition wrapUint64 (z : Z) : Z := z mod 2^64.
(** The conversion [uint32(x)] of an [int]. *)
Definition uint32 (z : Z) : Z := z mod 2^32.

Definition byte (c : ascii) : Z := Z.of_N (N_of_ascii c).
Definition len (s : string) : Z := Z.of_nat (String.length s).

(** ** strconv

    [ParseUint] and [ParseInt] are specialised to [base = 10] and
    [bitSize = 0], the arguments [Atoi] passes; [int] has 64 bits. *)
Module strconv.

Definition intSize : Z := 64.
Definition maxUint64 : Z := 2^64 - 1.

Definition syntaxError (fn str : string) : goError := NumError fn str ErrSyntax.
Definition rangeError (fn str : string) : goError := NumError fn str ErrRange.

(** [ch -= '0'] on a byte. *)
Definition digitOf (c : ascii) : Z := (byte c - 48) mod 256.

(** The loop of [ParseUint]: [cutoff] is the smallest number whose tenfold
    exceeds [maxUint64]; a byte that is no decimal digit ends in the [default]
    case of the switch or fails [d >= byte(base)]. *)
Fixpoint parseUintLoop (s0 : string) (maxVal cutoff : Z) (s : string) (n : Z)
  : Z * error :=
  match s with
  | EmptyString => (n, nil)
  | String c rest =>
      let d := digitOf c in
      if 9 <? d then (0, Some (syntaxError "ParseUint" s0))
      else if cutoff <=? n then (maxVal, Some (rangeError "ParseUint" s0))
      else
        let n10 := wrapUint64 (n * 10) in
        let n1 := wrapUint64 (n10 + d) in
        if (n1 <? n10) || (maxVal <? n1)
        then (maxVal, Some (rangeError "ParseUint" s0))
        else parseUintLoop s0 maxVal cutoff rest n1
  end.

Definition ParseUint (s : string) : Z * error :=
  match s with
  | EmptyString => (0, Some (syntaxError "ParseUint" s))
  | _ =>
      let bitSize := intSize in
      let cutoff := maxUint64 / 10 + 1 in
      let maxVal := wrapUint64 (2 ^ bitSize - 1) in
      parseUintLoop s maxVal cutoff s 0
  end.

(** [err != nil && err.( *NumError).Err != ErrRange] *)
Definition otherThanRange (e : error) : bool :=
  match e with
  | None => false
  | Some (NumError _ _ ErrRange) => false
  | Some _ => true
  end.

(** [err.( *NumError).Func = fn; err.( *NumError).Num = num] *)
Definition setFuncNum (fn num : string) (e : error) : error :=
  match e with
  | Some (NumError _ _ err) => Some (NumError fn num err)
  | _ => e
  end.

(** [ParseInt] once the leading sign is picked off [s0]: convert unsigned
    and check range. *)
Definition parseIntUnsigned (s0 : string) (neg : bool) (s : string) : Z * error :=
  let '(un, err) := ParseUint s in
  if otherThanRange err then (0, setFuncNum "ParseInt" s0 err)
  else
    let cutoff := 2 ^ (intSize - 1) in
    if negb neg && (cutoff <=? un)
    then (wrapInt64 (cutoff - 1), Some (rangeError "ParseInt" s0))
    else if neg && (cutoff <? un)
    then (wrapInt64 (- cutoff), Some (rangeError "ParseInt" s0))
    else (if neg then wrapInt64 (- wrapInt64 un) else wrapInt64 un, nil).

Definition ParseInt (s : string) : Z * error :=
  match s with
  | EmptyString => (0, Some (syntaxError "ParseInt" s))
  | String c rest =>
      let neg := Ascii.eqb c "-" in
      parseIntUnsigned s neg (if Ascii.eqb c "+" || neg then rest else s)
  end.

(** The loop of [Atoi]'s fast path. *)
Fixpoint atoiLoop (s : string) (n : Z) : option Z :=
  match s with
  | EmptyString => Some n
  | String c rest =>
      let d := digitOf c in
      if 9 <? d then None else atoiLoop rest (wrapInt64 (n * 10 + d))
  end.

(** [nerr.Func = fn] *)
Definition setFunc (fn : string) (e : error) : error :=
  match e with
  | Some (NumError _ num err) => Some (NumError fn num err)
  | _ => e
  end.

Definition Atoi (s : string) : Z * error :=
  let sLen := len s in
  if (0 <? sLen) && (sLen <? 19) then
    (* fast path for small integers that fit the int type *)
    match s with
    | EmptyString => (0, Some (syntaxError "Atoi" s))
    | String c rest =>
        let s0 := s in
        let signed := Ascii.eqb c "-" || Ascii.eqb c "+" in
        let s := if signed then rest else s in
        if signed && (len s <? 1) then (0, Some (syntaxError "Atoi" s0))
        else
          match atoiLoop s 0 with
          | None => (0, Some (syntaxError "Atoi" s0))
          | Some n => (if Ascii.eqb c "-" then wrapInt64 (- n) else n, nil)
          end
    end
  else
    (* slow path for invalid, big, or underscored integers *)
    let '(i64, err) := ParseInt s in
    (i64, setFunc "Atoi" err).

End strconv.

(** ** Signed decimal numerals

    What [strconv.Atoi] is documented to read, written without regard to how
    it reads it: an optional sign, then one decimal digit or more. *)

Definition isDigit (c : ascii) : bool := (48 <=? byte c) && (byte c <=? 57).

(** The number whose digits are those of [n] followed by [s]. *)
Fixpoint decimalValue (s : string) (n : Z) : option Z :=
  match s with
  | EmptyString => Some n
  | String c rest =>
      if isDigit c then decimalValue rest (10 * n + (byte c - 48)) else None
  end.

Definition signedDecimal (s : string) : option Z :=
  match s with
  | EmptyString => None
  | String c rest =>
      if Ascii.eqb c "-" then
        match rest with
        | EmptyString => None
        | _ => option_map Z.opp (decimalValue rest 0)
        end
      else if Ascii.eqb c "+" then
        match rest with
        | EmptyString => None
        | _ => decimalValue rest 0
        end
      else decimalValue s 0
  end.

(** The range of [int]. *)
Definition inInt (n : Z) : bool := (- 2^63 <=? n) && (n <? 2^63).

(** A repository-ID argument is malformed when it is no signed decimal
    numeral of an [int]. *)
Definition malformed (arg : string) : bool :=
  match signedDecimal arg with
  | Some n => negb (inInt n)
  | None => true
  end.

(** A repository ID proper is a [uint32], what [forceIndex] takes: the
    repository an argument names when it is the decimal numeral of one. *)
Definition repositoryID (arg : string) : option Z :=
  match arg with
  | EmptyString => None
  | _ =>
      match decimalValue arg 0 with
      | Some n => if n <? 2^32 then Some n else None
      | None => None
      end
  end.

(** ** strings *)
Module strings.

(** White space below [0x80]: ['\t'], ['\n'], ['\v'], ['\f'], ['\r'], [' ']
    (the table [asciiSpace]).  Bytes from [0x80] on start a multi-byte rune;
    they are kept, which is right for every string without U+0085, U+00A0 and
    the other non-ASCII spaces at its ends. *)
Definition asciiSpace (c : ascii) : bool :=
  let b := byte c in ((9 <=? b) && (b <=? 13)) || (b =? 32).

Fixpoint trimLeft (s : string) : string :=
  match s with
  | EmptyString => EmptyString
  | String c rest => if asciiSpace c then trimLeft rest else s
  end.

Fixpoint trimRight (s : string) : string :=
  match s with
  | EmptyString => EmptyString
  | String c rest =>
      match trimRight rest with
      | EmptyString => if asciiSpace c then EmptyString else String c EmptyString
      | rest' => String c rest'
      end
  end.

Definition TrimSpace (s : string) : string := trimRight (trimLeft s).

(** [strings.Cut(s, sep)] for a one-byte separator. *)
Fixpoint Cut (s : string) (sep : ascii) : string * string * bool :=
  match s with
  | EmptyString => (EmptyString, EmptyString, false)
  | String c rest =>
      if Ascii.eqb c sep then (EmptyString, rest, true)
      else let '(before, after, found) := Cut rest sep in (String c before, after, found)
  end.

End strings.

(** ** Results of calls that return [(T, error)]

    [Ok v] is [(v, nil)] and [Err e] is [(zero, e)] with [e] non-nil: the
    callers below never look at the value next to an error.  A function whose
    two results are both read ([strconv.Atoi], [forceIndex]) returns a pair. *)
Inductive result (T : Type) : Type :=
| Ok (v : T)
| Err (e : goError).
Arguments Ok {T} v.
Arguments Err {T} e.

(** ** fmt *)
Module fmt.

Fixpoint digits (fuel : nat) (n : N) (acc : string) : string :=
  match fuel with
  | O => acc
  | S fuel =>
      let acc := String (ascii_of_N (48 + n mod 10)) acc in
      if (n / 10 =? 0)%N then acc else digits fuel (n / 10)%N acc
  end.

(** The verb [%d] at an unsigned operand. *)
Definition formatUint (n : N) : string := digits (S (N.to_nat (N.log2 n))) n "".

End fmt.

(** ** net/url

    [Parse] up to the first test of [parse]; the rest of [parse] (scheme,
    authority, path and query) and [setFragment] are parameters, and so is the
    type of the parsed URL. *)
Module url.
Section Parse.
Context {URL : Type}.
Context (parseRest : string -> result URL).
Context (setFragment : URL -> string -> result URL).

Definition stringContainsCTLByte (s : string) : bool :=
  existsb (fun c => (byte c <? 32) || (byte c =? 127)) (list_ascii_of_string s).

Definition parse (rawURL : string) : result URL :=
  if stringContainsCTLByte rawURL
  then Err (New "net/url: invalid control character in URL")
  else parseRest rawURL.

Definition Parse (rawURL : string) : result URL :=
  let '(u, frag, _) := strings.Cut rawURL "#" in
  match parse u with
  | Err err => Err (urlError "parse" u err)
  | Ok url =>
      match frag with
      | EmptyString => Ok url
      | _ =>
          match setFragment url frag with
          | Err err => Err (urlError "parse" rawURL err)
          | Ok url => Ok url
          end
      end
  end.

End Parse.
End url.

(** ** net/http *)
Module http.

Definition MethodGet : string := "GET".

(** [httpguts.IsTokenRune] below [0x80]. *)
Definition isTokenByte (c : ascii) : bool :=
  let b := byte c in
  ((48 <=? b) && (b <=? 57)) || ((65 <=? b) && (b <=? 90)) || ((97 <=? b) && (b <=? 122))
  || existsb (Ascii.eqb c) (list_ascii_of_string "!#$%&'*+-.^_`|~").

Definition validMethod (method : string) : bool :=
  (0 <? len method) && forallb isTokenByte (list_ascii_of_string method).

Record Request {URL : Type} : Type := mkRequest {
  Method : string;
  reqURL : URL;
  Header : gmap string (list string) }.
Arguments Request : clear implicits.
Arguments mkRequest {URL} _ _ _.

Record Response : Type := mkResponse {
  StatusCode : Z;
  Body : string }.

Section NewRequest.
Context {URL : Type}.
Context (parseRest : string -> result URL).
Context (setFragment : URL -> string -> result URL).

(** The context is never nil here (ffcli hands one to [Exec]) and the body
    is; cancellation is outside this model. *)
Definition NewRequestWithContext (method urlStr : string) : result (Request URL) :=
  let method := match method with EmptyString => "GET" | _ => method end in
  if negb (validMethod method)
  then Err (Errorf "net/http: invalid method %q" [opString method])
  else
    match url.Parse parseRest setFragment urlStr with
    | Err err => Err err
    | Ok u => Ok (mkRequest method u ∅)
    end.

(** [request.Header.Set(key, value)] for a key in canonical form. *)
Definition Header_Set (r : Request URL) (key value : string) : Request URL :=
  mkRequest (Method r) (reqURL r) (<[key := [value]]> (Header r)).

End NewRequest.
End http.

(** ** flag

    A flag set is its name and the flags defined on it.  Defining a flag
    returns the cell the flag is bound to, which holds the default until the
    command line is parsed; here the cell is its content. *)
Module flag.

Inductive Value : Type :=
| boolValue (b : bool)
| int64Value (i : Z)
| stringValue (s : string)
| uintValue (u : N).

Record Flag : Type := mkFlag {
  Name : string;
  Usage : string;
  DefValue : Value }.

Record FlagSet : Type := mkFlagSet {
  name : string;
  formal : gmap string Flag }.

Definition NewFlagSet (name : string) : FlagSet := mkFlagSet name ∅.

Definition Var (f : FlagSet) (value : Value) (name usage : string) : FlagSet :=
  mkFlagSet (flag.name f) (<[name := mkFlag name usage value]> (formal f)).

Definition Bool (f : FlagSet) (name : string) (value : bool) (usage : string)
  : bool * FlagSet := (value, Var f (boolValue value) name usage).
Definition Int64 (f : FlagSet) (name : string) (value : Z) (usage : string)
  : Z * FlagSet := (value, Var f (int64Value value) name usage).
Definition String (f : FlagSet) (name : string) (value : string) (usage : string)
  : string * FlagSet := (value, Var f (stringValue value) name usage).
Definition Uint (f : FlagSet) (name : string) (value : N) (usage : string)
  : N * FlagSet := (value, Var f (uintValue value) name usage).

End flag.

(** ** The shard-merge engine behind [doMerge]

    [doMerge] is called by [debug merge] and defined in another file of the
    package, which is not part of the source at hand.  What follows is the
    engine as the specification words it (sections 3, 4.2 and 6). *)
Module ShardMergeEngine.

(** Modelled from the spec: the data model of the engine that [doMerge]
    drives ([ShardMeta], [Bin], [MergePlan]; section 3). *)
Record ShardMeta : Type := mkShardMeta {
  Path : string;
  Size : Z;                       (* bytes *)
  RepositoryIDs : list Z;
  Generation : nat }.

Record Bin : Type := mkBin {
  InputShards : list ShardMeta;
  TargetPath : string }.

Record MergePlan : Type := mkMergePlan {
  Bins : list Bin;
  TargetSize : Z;
  Simulate : bool }.

(** Modelled from the spec: what the missing [Execute] reports of a bin it
    merges, the compound shard, the shards that go into it and, failures
    being reported per bin (section 7), the failure if there is one. *)
Record BinReport : Type := mkBinReport {
  Target : string;
  Inputs : list string;
  Failure : error }.

Definition Report : Type := list BinReport.

Section Engine.

(** A shard file is self-describing; how membership and generation are read
    off its bytes, how several shards are merged into one, and how the
    compound shard and its temporary file are named is left to the
    collaborators. *)
Context (reposOf : string -> list Z).
Context (generationOf : string -> nat).
Context (mergeShards : list string -> string).
Context (compoundPath : list ShardMeta -> string).
Context (tmpPath : string -> string).

(** The disk: whether writing these bytes to this path fails (disk full,
    write failure). *)
Context (writeFails : string -> string -> bool).

(** Modelled from the spec: the directory scan of the missing engine.
    [ShardMeta] is reconstructed by directory scan alone; shards are
    considered in the order of [map_to_list], which is a function of the
    directory. *)
Definition scan (d : gmap string string) : list ShardMeta :=
  map (fun '(p, c) => mkShardMeta p (len c) (reposOf c) (generationOf c)) (map_to_list d).

Definition binSize (b : list ShardMeta) : Z := fold_right (fun s n => Size s + n) 0 b.

Definition sharesRepository (s : ShardMeta) (b : list ShardMeta) : bool :=
  existsb (fun r => existsb (fun x => existsb (Z.eqb r) (RepositoryIDs x)) b) (RepositoryIDs s).

(** Modelled from the spec: the fit test of the missing [Plan].  An open bin
    takes the shard when the sum stays within the target and no repository ID
    comes twice; the bin of a shard at or above the target is never open. *)
Definition fits (targetSize : Z) (s : ShardMeta) (b : list ShardMeta) : bool :=
  (binSize b + Size s <=? targetSize)
  && negb (existsb (fun x => targetSize <=? Size x) b)
  && negb (sharesRepository s b).

Fixpoint firstFit (targetSize : Z) (s : ShardMeta) (bins : list (list ShardMeta))
  : list (list ShardMeta) :=
  match bins with
  | [] => [[s]]
  | b :: rest =>
      if fits targetSize s b then (b ++ [s])%list :: rest
      else b :: firstFit targetSize s rest
  end.

(** Modelled from the spec: one step of the missing [Plan]; a shard at or
    above the target goes into a bin of its own, any other into the first
    open bin it fits, or a new one. *)
Definition place (targetSize : Z) (bins : list (list ShardMeta)) (s : ShardMeta)
  : list (list ShardMeta) :=
  if targetSize <=? Size s then (bins ++ [[s]])%list else firstFit targetSize s bins.

(** Modelled from the spec: the missing [Plan], greedy first-fit bin packing
    of the shards in the order given. *)
Definition Plan (shards : list ShardMeta) (targetSize : Z) (simulate : bool) : MergePlan :=
  mkMergePlan
    (map (fun b => mkBin b (compoundPath b)) (fold_left (place targetSize) shards []))
    targetSize simulate.

(** Modelled from the spec: one bin of the missing [Execute].  A bin of one
    shard is left as it is and not reported.  Otherwise, unless the plan is
    simulated, the shards are merged and the compound shard is written to a
    temporary path; when that write fails the temporary output is discarded,
    the input shards stay, and the failure goes into the report; when it
    succeeds the temporary file is moved onto the target path, and only then
    are the input shards removed.  A simulated plan does none of this and
    reports the bin as merged. *)
Definition executeBin (simulate : bool) (d : gmap string string) (b : Bin)
  : gmap string string * option BinReport :=
  match InputShards b with
  | [] | [_] => (d, None)
  | inputs =>
      let entry := mkBinReport (TargetPath b) (map Path inputs) in
      if simulate then (d, Some (entry nil))
      else
        let merged := mergeShards (omap (fun s => d !! Path s) inputs) in
        let tmp := tmpPath (TargetPath b) in
        if writeFails tmp merged
        then (delete tmp d, Some (entry (Some (New "write failure"))))
        else
          let d := <[tmp := merged]> d in
          let d := <[TargetPath b := merged]> (delete tmp d) in
          (fold_left (fun d s => delete (Path s) d) inputs d, Some (entry nil))
  end.

(** Modelled from the spec: the bins of the missing [Execute], one after the
    other; a bin that fails does not stop the bins after it. *)
Fixpoint executeBins (simulate : bool) (bins : list Bin) (d : gmap string string)
  : gmap string string * Report :=
  match bins with
  | [] => (d, [])
  | b :: rest =>
      let '(d1, r) := executeBin simulate d b in
      let '(d2, report) := executeBins simulate rest d1 in
      (d2, (option_list r ++ report)%list)
  end.

(** Modelled from the spec: the error of the missing [Execute], the first
    failure of a bin, nil when no bin failed. *)
Definition firstFailure (report : Report) : error := head (omap Failure report).

(** Modelled from the spec: the missing [Execute], with its error, the
    directory it leaves and its report. *)
Definition Execute (plan : MergePlan) (d : gmap string string)
  : error * gmap string string * Report :=
  let '(d', report) := executeBins (Simulate plan) (Bins plan) d in
  (firstFailure report, d', report).

(** Modelled from the spec: the missing [doMerge], a merge invocation on a
    target directory of the file system [fs] (directory to file to bytes): a
    scan, a plan, its execution.  A missing directory is an input error with
    no state change.  Recovery of a crashed merge, which the specification
    places at startup, is no part of an invocation. *)
Definition doMerge (dir : string) (targetSizeBytes : Z) (simulate : bool)
    (fs : gmap string (gmap string string))
  : error * gmap string (gmap string string) * Report :=
  match fs !! dir with
  | None => (Some (New "missing directory"), fs, [])
  | Some d =>
      let '(err, d', report) := Execute (Plan (scan d) targetSizeBytes simulate) d in
      (err, <[dir := d']> fs, report)
  end.

(** The merges of a plan: for each bin of more than one shard, the compound
    shard and the shards that go into it. *)
Definition mergeOf (b : Bin) : option (string * list string) :=
  match InputShards b with
  | [] | [_] => None
  | inputs => Some (TargetPath b, map Path inputs)
  end.

Definition merges (plan : MergePlan) : list (string * list string) :=
  omap mergeOf (Bins plan).

(** A merge as the report of a run without failure has it. *)
Definition merged (x : string * list string) : BinReport :=
  mkBinReport (fst x) (snd x) nil.

(** The merge a report entry is about. *)
Definition mergeIn (r : BinReport) : string * list string := (Target r, Inputs r).

End Engine.
End ShardMergeEngine.

(** ** The indexing queue behind [/debug/queue]

    [debug queue] prints what the server answers at [/debug/queue].  The
    queue and the handler that renders it are in other files of the package,
    which are not part of the source at hand.  What follows is the queue and
    its listing as the specification words them (sections 3, 4.1 and 6). *)
Module IndexingQueue.

(** Branch names with their commit hashes. *)
Definition BranchCommits : Type := list (string * string).

(** Modelled from the spec: the [Repository] of the data model behind the
    missing listing, as far as the listing shows it (section 3); its priority
    and desired branches reach the queue through [Enqueue]. *)
Record Repository : Type := mkRepository {
  ID : Z;
  Name : string;
  IndexedBranches : BranchCommits }.

(** Modelled from the spec: the [QueueEntry] of the missing queue
    (section 3). *)
Record QueueEntry : Type := mkQueueEntry {
  RepositoryID : Z;
  Priority : Z;
  EnqueuedAt : Z;
  DesiredBranches : BranchCommits }.

(** Modelled from the spec: the missing queue, at most one entry for a
    repository ID. *)
Definition Queue : Type := list QueueEntry.

(** The entry the queue has for a repository, if it has one. *)
Fixpoint lookup (q : Queue) (id : Z) : option QueueEntry :=
  match q with
  | [] => None
  | e :: rest => if RepositoryID e =? id then Some e else lookup rest id
  end.

(** Modelled from the spec: the missing [Enqueue], at the time [now]: an
    upsert that replaces [Priority] and [DesiredBranches] of the entry that
    is there and leaves its [EnqueuedAt] alone. *)
Fixpoint Enqueue (now repositoryID priority : Z) (desiredBranches : BranchCommits)
    (q : Queue) : Queue :=
  match q with
  | [] => [mkQueueEntry repositoryID priority now desiredBranches]
  | e :: rest =>
      if RepositoryID e =? repositoryID
      then mkQueueEntry repositoryID priority (EnqueuedAt e) desiredBranches :: rest
      else e :: Enqueue now repositoryID priority desiredBranches rest
  end.

(** [Enqueue] calls one after the other, each with its time, its
    repository, its priority and its branches. *)
Definition EnqueueAll (calls : list (Z * Z * Z * BranchCommits)) (q : Queue) : Queue :=
  fold_left (fun q c => Enqueue (fst (fst (fst c))) (snd (fst (fst c))) (snd (fst c)) (snd c) q)
    calls q.

(** Modelled from the spec: the order of the missing queue, highest
    [Priority] first, ties broken by smallest [EnqueuedAt]. *)
Definition before (a b : QueueEntry) : bool :=
  (Priority b <? Priority a)
  || ((Priority a =? Priority b) && (EnqueuedAt a <=? EnqueuedAt b)).

(** A repository with its outstanding entry, if it has one. *)
Definition Listed : Type := (Repository * option QueueEntry)%type.

(** Modelled from the spec: the order of the missing listing; the
    repositories on the queue come first, in the order of the queue. *)
Definition ahead (a b : Listed) : bool :=
  match snd a, snd b with
  | Some x, Some y => before x y
  | Some _, None => true
  | None, Some _ => false
  | None, None => true
  end.

(** Sorting by insertion: what is ahead stays ahead, and of two that rank
    the same the one that came first stays first. *)
Fixpoint insert (x : Listed) (l : list Listed) : list Listed :=
  match l with
  | [] => [x]
  | y :: rest => if ahead x y then x :: y :: rest else y :: insert x rest
  end.

Definition sort (l : list Listed) : list Listed := fold_right insert [] l.

(** Modelled from the spec: a row of the missing listing (section 6); an
    [Age] of [None] is the one rendered as [-]. *)
Module Row.
Record t : Type := mk {
  Position : nat;
  Name : string;
  ID : Z;
  IsOnQueue : bool;
  Age : option Z;
  Branches : BranchCommits }.
End Row.

(** Modelled from the spec: what the missing listing shows of a repository
    at a position, column by column (section 6). *)
Definition row (now : Z) (position : nat) (x : Listed) : Row.t :=
  Row.mk position (Name (fst x)) (ID (fst x))
    (match snd x with Some _ => true | None => false end)
    (match snd x with Some e => Some (now - EnqueuedAt e) | None => None end)
    (match snd x with Some e => DesiredBranches e | None => IndexedBranches (fst x) end).

(** Modelled from the spec: the missing listing of the repositories [repos]
    against the queue [q] at the time [now]. *)
Definition listing (now : Z) (repos : list Repository) (q : Queue) : list Row.t :=
  imap (row now) (sort (map (fun r => (r, lookup q (ID r))) repos)).

(** Modelled from the spec: the names of the columns (section 6). *)
Definition columns : list string :=
  ["Position"; "Name"; "ID"; "IsOnQueue"; "Age"; "Branches"].

Fixpoint joinWith (sep : string) (l : list string) : string :=
  match l with
  | [] => EmptyString
  | [x] => x
  | x :: rest => x +:+ sep +:+ joinWith sep rest
  end.

(** Comma-separated [name@commit] pairs. *)
Definition branchList (b : BranchCommits) : string :=
  joinWith "," (map (fun nc => fst nc +:+ "@" +:+ snd nc) b).

Section Text.

(** How an elapsed time is written and how the cells are laid out as text
    is left to the server. *)
Context (formatDuration : Z -> string).
Context (layout : list (list string) -> string).

(** Modelled from the spec: the cells of a row of the missing listing, as
    text. *)
Definition cells (r : Row.t) : list string :=
  [ fmt.formatUint (N.of_nat (Row.Position r));
    Row.Name r;
    fmt.formatUint (Z.to_N (Row.ID r));
    if Row.IsOnQueue r then "true" else "false";
    match Row.Age r with Some age => formatDuration age | None => "-" end;
    branchList (Row.Branches r) ].

(** The listing as text: the column names, then the rows. *)
Definition render (now : Z) (repos : list Repository) (q : Queue) : string :=
  layout (columns :: map cells (listing now repos q)).

End Text.
End IndexingQueue.

(** ** The effects of the debug commands *)
Section Debug.

(** What [debug.go] takes from the rest of the package and from its
    environment. *)
Context {rootConfig Server URL : Type}.
Context (rootFlags : list flag.Flag).
Context (rootConfigDefault : rootConfig).
Context (IndexDir : Server -> string).                 (* s.IndexDir *)
Context (getEnvWithDefaultInt64 : string -> Z -> Z).
Context (getEnvWithDefaultString : string -> string -> string).
Context (srcLogLevelIsDebug : bool).
Context (DefaultDir : string).                         (* build.DefaultDir *)
Context (parseRest : string -> result URL).
Context (setFragment : URL -> string -> result URL).
Context (URL_String : URL -> string).                  (* address.String() *)

(** The calls a command makes out of [debug.go]. *)
Inductive action : Type :=
| newServer (conf : rootConfig)
| forceIndex (s : Server) (id : Z)                  (* s.forceIndex(id) *)
| log_Println (msg : string)
| printShardStats (path : string)
| printMetaData (path : string)
| setDebug             (* debug = log.New(os.Stderr, "", log.LstdFlags) *)
| doMerge (dir : string) (targetSizeBytes : Z) (simulate : bool)
| listIndexed (indexDir : string)
| Sourcegraph_List (s : Server) (indexed : list Z)  (* s.Sourcegraph.List(ctx, indexed) *)
| fmt_Println (v : Z)
| DefaultClient_Do (request : http.Request URL)     (* http.DefaultClient.Do(request) *)
| io_Copy_Stdout (body : string)                    (* io.Copy(os.Stdout, body) *)
| Body_Close (response : http.Response).

(** What each call returns. *)
Definition response (a : action) : Type :=
  match a with
  | newServer _ => result Server
  | forceIndex _ _ => (string * error)%type
  | log_Println _ => unit
  | printShardStats _ => error
  | printMetaData _ => error
  | setDebug => unit
  | doMerge _ _ _ => error
  | listIndexed _ => list Z
  | Sourcegraph_List _ _ => result (list Z)         (* repos.IDs *)
  | fmt_Println _ => unit
  | DefaultClient_Do _ => result http.Response
  | io_Copy_Stdout _ => (Z * error)%type
  | Body_Close _ => error
  end.

Inductive prog (R : Type) : Type :=
| Ret (r : R)
| Call (a : action) (k : response a -> prog R).
Arguments Ret {R} r.
Arguments Call {R} a k.

Fixpoint bind {A B : Type} (p : prog A) (f : A -> prog B) : prog B :=
  match p with
  | Ret r => f r
  | Call a k => Call a (fun x => bind (k x) f)
  end.

Definition call (a : action) : prog (response a) := Call a Ret.

(** One call of a run, with what it returned. *)
Record event : Type := Event {
  act : action;
  ans : response act }.

Definition handler (W : Type) : Type := forall a : action, W -> response a * W.

(** [run h p w]: the result of [p], the world it leaves, and the calls it
    made in order, when [h] answers the calls starting from world [w]. *)
Fixpoint run {W R : Type} (h : handler W) (p : prog R) (w : W) : R * W * list event :=
  match p with
  | Ret r => (r, w, [])
  | Call a k =>
      let '(x, w1) := h a w in
      let '(r, w2, tr) := run h (k x) w1 in
      (r, w2, Event a x :: tr)
  end.

Definition returned {W R : Type} (o : R * W * list event) : R := fst (fst o).
Definition world {W R : Type} (o : R * W * list event) : W := snd (fst o).
Definition calls {W R : Type} (o : R * W * list event) : list event := snd o.

Notation "x <- a ;; k" := (Call a (fun x => k))
  (at level 100, a at next level, right associativity, only parsing).
Notation "x <- p ;;; k" := (bind p (fun x => k))
  (at level 100, p at next level, right associativity, only parsing).

(** ** ffcli

    [ffcli.Command], with the variables its flags are bound to ([Vars] and
    their content [cells] before the command line is parsed) made a field:
    [Exec] is the body of the closure, applied to the content of those
    variables at the time of the call. *)
#[local] Unset Elimination Schemes.
Inductive Command : Type := mkCommand {
  Name : string;
  ShortUsage : string;
  ShortHelp : string;
  LongHelp : string;
  FlagSet : option flag.FlagSet;
  Subcommands : list Command;
  Vars : Type;
  cells : Vars;
  Exec : option (Vars -> list string -> prog error) }.
#[local] Set Elimination Schemes.

(** ** debug.go *)

(** [conf := rootConfig{}; conf.registerRootFlags(fs)].  The method is
    defined elsewhere in the package: the flags it defines on [fs]
    ([rootFlags]) and the content of [conf] once its fields are bound to them
    ([rootConfigDefault]) are parameters. *)
Definition registerRootFlags (fs : flag.FlagSet) : rootConfig * flag.FlagSet :=
  (rootConfigDefault,
   fold_left (fun f x => flag.Var f (flag.DefValue x) (flag.Name x) (flag.Usage x))
     rootFlags fs).

Definition debugIndexExec (conf : rootConfig) (args : list string) : prog error :=
  match args with
  | [] => Ret (Some (Errorf "missing repository ID" []))
  | arg0 :: _ =>
      s <- newServer conf ;;
      match s with
      | Err err => Ret (Some err)
      | Ok s =>
          let '(id, err) := strconv.Atoi arg0 in
          match err with
          | Some _ => Ret err
          | None =>
              r <- forceIndex s (uint32 id) ;;
              let '(msg, err) := r in
              _ <- log_Println msg ;;
              match err with
              | Some _ => Ret err
              | None => Ret nil
              end
          end
      end
  end.

Definition debugIndex : Command :=
  let fs := flag.NewFlagSet "debug index" in
  let '(conf, fs) := registerRootFlags fs in
  {| Name := "index";
     ShortUsage := "index [flags] <repository ID>";
     ShortHelp := "index a repository";
     LongHelp := "";
     FlagSet := Some fs;
     Subcommands := [];
     Vars := rootConfig;
     cells := conf;
     Exec := Some debugIndexExec |}.

Definition debugTrigramsExec (_ : unit) (args : list string) : prog error :=
  match args with
  | [] => Ret (Some (Errorf "missing path to shard" []))
  | arg0 :: _ => call (printShardStats arg0)
  end.

Definition debugTrigrams : Command :=
  {| Name := "trigrams";
     ShortUsage := "trigrams <path/to/shard>";
     ShortHelp := "list all the trigrams in a shard";
     LongHelp := "";
     FlagSet := None;
     Subcommands := [];
     Vars := unit;
     cells := tt;
     Exec := Some debugTrigramsExec |}.

Definition debugMetaExec (_ : unit) (args : list string) : prog error :=
  match args with
  | [] => Ret (Some (Errorf "missing path to shard" []))
  | arg0 :: _ => call (printMetaData arg0)
  end.

Definition debugMeta : Command :=
  {| Name := "meta";
     ShortUsage := "meta <path/to/shard>";
     ShortHelp := "output index and repo metadata";
     LongHelp := "";
     FlagSet := None;
     Subcommands := [];
     Vars := unit;
     cells := tt;
     Exec := Some debugMetaExec |}.

(** The variables of [debugMerge]'s flags. *)
Record mergeVars : Type := mkMergeVars {
  simulate : bool;
  targetSize : Z;         (* int64, in MiB *)
  index : string;
  dbg : bool }.

(** [a * b] on [int64]. *)
Definition mulInt64 (a b : Z) : Z := wrapInt64 (a * b).

Definition debugMergeExec (v : mergeVars) (args : list string) : prog error :=
  _ <- (if dbg v then call setDebug else Ret tt) ;;;
  call (doMerge (index v) (mulInt64 (mulInt64 (targetSize v) 1024) 1024) (simulate v)).

Definition debugMerge : Command :=
  let fs := flag.NewFlagSet "debug merge" in
  let '(simulate, fs) := flag.Bool fs "simulate" false "if set, merging will be simulated" in
  let '(targetSize, fs) :=
    flag.Int64 fs "merge_target_size" (getEnvWithDefaultInt64 "SRC_TARGET_SIZE" 2000)
      "the target size of compound shards in MiB" in
  let '(index, fs) :=
    flag.String fs "index" (getEnvWithDefaultString "DATA_DIR" DefaultDir)
      "set index directory to use" in
  let '(dbg, fs) := flag.Bool fs "debug" srcLogLevelIsDebug "turn on more verbose logging." in
  {| Name := "merge";
     FlagSet := Some fs;
     ShortUsage := "merge [flags] <dir>";
     ShortHelp := "run a full merge operation inside dir";
     LongHelp := "";
     Subcommands := [];
     Vars := mergeVars;
     cells := mkMergeVars simulate targetSize index dbg;
     Exec := Some debugMergeExec |}.

(** [for _, r := range ids { fmt.Println(r) }] *)
Fixpoint printEach (ids : list Z) : prog unit :=
  match ids with
  | [] => Ret tt
  | r :: rest => _ <- fmt_Println r ;; printEach rest
  end.

Definition debugListExec (v : rootConfig * bool) (args : list string) : prog error :=
  let '(conf, excludeIndexed) := v in
  s <- newServer conf ;;
  match s with
  | Err err => Ret (Some err)
  | Ok s =>
      indexed <- (if negb excludeIndexed then call (listIndexed (IndexDir s)) else Ret []) ;;;
      repos <- Sourcegraph_List s indexed ;;
      match repos with
      | Err err => Ret (Some err)
      | Ok ids => _ <- printEach ids ;;; Ret nil
      end
  end.

Definition debugList : Command :=
  let fs := flag.NewFlagSet "debug list" in
  let '(conf, fs) := registerRootFlags fs in
  let '(excludeIndexed, fs) :=
    flag.Bool fs "exclude_indexed" false
      "Do not send the current index to Sourcegraph. When set the repositories listed will not include transient repositories. Transient repositories are currently indexed on this replica, but will be moved to another." in
  {| Name := "list";
     ShortUsage := "list [flags]";
     ShortHelp := "list the repositories that are OWNED by this indexserver";
     LongHelp := "";
     FlagSet := Some fs;
     Subcommands := [];
     Vars := (rootConfig * bool)%type;
     cells := (conf, excludeIndexed);
     Exec := Some debugListExec |}.

Definition debugListIndexedExec (conf : rootConfig) (args : list string) : prog error :=
  s <- newServer conf ;;
  match s with
  | Err err => Ret (Some err)
  | Ok s =>
      indexed <- listIndexed (IndexDir s) ;;
      _ <- printEach indexed ;;;
      Ret nil
  end.

Definition debugListIndexed : Command :=
  let fs := flag.NewFlagSet "debug list-indexed" in
  let '(conf, fs) := registerRootFlags fs in
  {| Name := "list-indexed";
     ShortUsage := "list-indexed [flags]";
     ShortHelp := "list the repositories that are INDEXED by this indexserver";
     LongHelp := "";
     FlagSet := Some fs;
     Subcommands := [];
     Vars := rootConfig;
     cells := conf;
     Exec := Some debugListIndexedExec |}.

(** The double quote and the line feed, for the raw string literal below. *)
Definition dq : string := String.String "034" EmptyString.
Definition nl : string := String.String "010" EmptyString.

Definition longHelpLines : list string :=
  ["COLUMN HEADERS";
   "  Position     zero-indexed position of this repository in the indexing queue (sorted by priority).";
   "  Name         name for this repository";
   "  ID           ID for this repository";
   "  IsOnQueue    " +:+ dq +:+ "true" +:+ dq +:+ " if this repository has an outstanding indexing job that's enqueued for future work. " +:+ dq +:+ "false" +:+ dq +:+ " ";
   "               otherwise.";
   "  Age          amount of time that this repository has spent in the indexing queue since its outstanding indexing job ";
   "               was first added (ignoring any job metadata updates that may have occurred while it was still enqueued). ";
   "               A " +:+ dq +:+ "-" +:+ dq +:+ " is printed instead if this repository doesn't have an outstanding job.";
   "  Branches     comma-separated list of branches in $BRANCH_NAME@$COMMIT_HASH format. ";
   "               If the repository has a job on the indexing queue, this list represents the desired set of ";
   "               branches + associated commits that will be process during the next indexing job. ";
   "               However, if the repository  doesn't have a job on the queue, this list represents the set of ";
   "               branches + associated commits that was indexed during its most recent indexing job."].

(** The raw literal opens with a line feed and every line ends with one. *)
Definition longHelpRaw : string :=
  nl +:+ fold_right (fun l acc => l +:+ nl +:+ acc) "" longHelpLines.

Definition longHelp : string := strings.TrimSpace longHelpRaw.

(** The variables of [debugQueue]'s flags. *)
Record queueVars : Type := mkQueueVars {
  hostname : string;
  port : N }.             (* uint *)

(** [fmt.Sprintf("http://%s:%d/debug/queue", hostname, port)] *)
Definition queueURL (v : queueVars) : string :=
  "http://" +:+ hostname v +:+ ":" +:+ fmt.formatUint (port v) +:+ "/debug/queue".

Definition debugQueueExec (v : queueVars) (args : list string) : prog error :=
  let raw := queueURL v in
  match url.Parse parseRest setFragment raw with
  | Err err => Ret (Some (Errorf "parsing URL %q: %s" [opString raw; opError err]))
  | Ok address =>
      match
        http.NewRequestWithContext parseRest setFragment http.MethodGet (URL_String address)
      with
      | Err err => Ret (Some (Errorf "constructing request: %w" [opError err]))
      | Ok request =>
          let request := http.Header_Set request "Accept" "text/plain" in
          r <- DefaultClient_Do request ;;
          match r with
          | Err err => Ret (Some err)
          | Ok response =>
              c <- io_Copy_Stdout (http.Body response) ;;
              let '(_, err) := c in
              (* defer response.Body.Close() *)
              _ <- Body_Close response ;;
              match err with
              | Some e => Ret (Some (Errorf "writing to stdout: %w" [opError e]))
              | None => Ret nil
              end
          end
      end
  end.

Definition debugQueue : Command :=
  let fs := flag.NewFlagSet "debug queue" in
  let '(hostname, fs) :=
    flag.String fs "hostname" "localhost"
      "the hostname of the zoekt-sourcegraph-indexserver instance to connect to" in
  let '(port, fs) :=
    flag.Uint fs "port" 6072
      "the port of the zoekt-sourcegraph-indexserver instance to connect to" in
  {| Name := "queue";
     ShortUsage := "queue [flags]";
     ShortHelp := "list the repositories in the indexing queue, sorted by descending priority";
     LongHelp := longHelp;
     FlagSet := Some fs;
     Subcommands := [];
     Vars := queueVars;
     cells := mkQueueVars hostname port;
     Exec := Some debugQueueExec |}.

Definition debugCmd : Command :=
  let fs := flag.NewFlagSet "debug" in
  {| Name := "debug";
     ShortUsage := "debug <subcommand>";
     ShortHelp := "a set of commands for debugging and testing";
     LongHelp := "";
     FlagSet := Some fs;
     Subcommands :=
       [ debugIndex;
         debugList;
         debugListIndexed;
         debugMerge;
         debugMeta;
         debugTrigrams;
         debugQueue ];
     Vars := unit;
     cells := tt;
     Exec := None |}.

(** ** What a run called *)

Definition forceIndexCalls (tr : list event) : list (Server * Z) :=
  omap (fun e => match act e with forceIndex s id => Some (s, id) | _ => None end) tr.

Definition doMergeCalls (tr : list event) : list (string * Z * bool) :=
  omap (fun e => match act e with doMerge d t s => Some (d, t, s) | _ => None end) tr.

Definition requests (tr : list event) : list (http.Request URL) :=
  omap (fun e => match act e with DefaultClient_Do r => Some r | _ => None end) tr.

(** *** A merge invocation against the engine of the specification *)
Section MergeInvocation.

Context (reposOf : string -> list Z).
Context (generationOf : string -> nat).
Context (mergeShards : list string -> string).
Context (compoundPath : list ShardMergeEngine.ShardMeta -> string).
Context (tmpPath : string -> string).
Context (writeFails : string -> string -> bool).

(** The shard store (directory, file, bytes) and what the merges so far
    have reported. *)
Record MergeWorld : Type := mkMergeWorld {
  store : gmap string (gmap string string);
  reported : list ShardMergeEngine.Report }.

Definition engine (dir : string) (targetSizeBytes : Z) (simulate : bool)
    (fs : gmap string (gmap string string)) :=
  ShardMergeEngine.doMerge reposOf generationOf mergeShards compoundPath tmpPath writeFails
    dir targetSizeBytes simulate fs.

(** [h] with the engine behind [doMerge]: the engine works on the store and
    reports; every other call is answered by [h], away from the store. *)
Definition withEngine {W : Type} (h : handler W) : handler (W * MergeWorld) :=
  fun a wm =>
    match a as a0 return response a0 * (W * MergeWorld) with
    | doMerge dir size sim =>
        let '(err, fs, report) := engine dir size sim (store (snd wm)) in
        (err, (fst wm, mkMergeWorld fs (reported (snd wm) ++ [report])))
    | a0 => let '(x, w) := h a0 (fst wm) in (x, (w, snd wm))
    end.

End MergeInvocation.

(** *** A [debug queue] against the queue of the specification *)
Section QueueServer.

Context (formatDuration : Z -> string).
Context (layout : list (list string) -> string).

(** The server: its clock, the repositories it knows and its queue. *)
Record QueueWorld : Type := mkQueueWorld {
  clock : Z;
  catalog : list IndexingQueue.Repository;
  queue : IndexingQueue.Queue }.

(** [h] with the server behind the HTTP client: a request is answered with
    the listing, rendered from the server as it is; every other call is
    answered by [h], away from the server. *)
Definition withQueue {W : Type} (h : handler W) : handler (W * QueueWorld) :=
  fun a ws =>
    match a as a0 return response a0 * (W * QueueWorld) with
    | DefaultClient_Do _ =>
        (Ok (http.mkResponse 200
               (IndexingQueue.render formatDuration layout
                  (clock (snd ws)) (catalog (snd ws)) (queue (snd ws)))),
         ws)
    | a0 => let '(x, w) := h a0 (fst ws) in (x, (w, snd ws))
    end.

End QueueServer.

(** What a run copied to stdout. *)
Definition copied (tr : list event) : list string :=
  omap (fun e => match act e with io_Copy_Stdout body => Some body | _ => None end) tr.

(** *** The calls of [debug queue] *)

(** The calls [debug queue] makes are of these three kinds. *)
Definition queueCall (e : event) : Prop :=
  match act e with
  | DefaultClient_Do _ | io_Copy_Stdout _ | Body_Close _ => True
  | _ => False
  end.

(** *** The column headers of the queue listing *)

Fixpoint splitLines (s : string) : list string :=
  match s with
  | EmptyString => [EmptyString]
  | String c rest =>
      if Ascii.eqb c "010" then EmptyString :: splitLines rest
      else
        match splitLines rest with
        | l :: ls => String c l :: ls
        | [] => [String c EmptyString]
        end
  end.

Fixpoint indentation (l : string) : nat :=
  match l with
  | String " " rest => S (indentation rest)
  | _ => O
  end.

(** The first word of a line and what follows it. *)
Fixpoint firstWord (l : string) : string * string :=
  match l with
  | EmptyString => (EmptyString, EmptyString)
  | String c rest =>
      if Ascii.eqb c " " then (EmptyString, rest)
      else let '(word, tail) := firstWord rest in (String c word, tail)
  end.

Definition continued (text more : string) : string :=
  match more with
  | EmptyString => text
  | _ => text +:+ " " +:+ more
  end.

(** The help text as a table: a line indented by two spaces opens a column
    with its name, the lines indented further continue its description, and
    any other line (the title) belongs to no column.  Read from the last
    line up, [pending] is the continuation read so far. *)
Definition readLine (l : string) (acc : string * list (string * string))
  : string * list (string * string) :=
  let '(pending, columns) := acc in
  match indentation l with
  | O => (EmptyString, columns)
  | 2%nat =>
      let '(name, text) := firstWord (strings.TrimSpace l) in
      (EmptyString, (name, continued (strings.TrimSpace text) pending) :: columns)
  | _ => (continued (strings.TrimSpace l) pending, columns)
  end.

Definition columnHeaders (help : string) : list (string * string) :=
  snd (fold_right readLine (EmptyString, []) (splitLines help)).

(** *** The flags of a command *)

(** The default of the flag [name] of a command, when the command has a
    flag set and the flag is defined on it. *)
Definition flagDefault (c : Command) (name : string) : option flag.Value :=
  match FlagSet c with
  | Some fs => flag.DefValue <$> flag.formal fs !! name
  | None => None
  end.

Definition flagCount (c : Command) : option nat :=
  match FlagSet c with
  | Some fs => Some (size (flag.formal fs))
  | None => None
  end.

(** *** More of what a run called *)

Definition printed (tr : list event) : list Z :=
  omap (fun e => match act e with fmt_Println v => Some v | _ => None end) tr.

Definition logged (tr : list event) : list string :=
  omap (fun e => match act e with log_Println msg => Some msg | _ => None end) tr.

Definition listIndexedCalls (tr : list event) : list string :=
  omap (fun e => match act e with listIndexed dir => Some dir | _ => None end) tr.

Definition sourcegraphCalls (tr : list event) : list (Server * list Z) :=
  omap (fun e => match act e with Sourcegraph_List s indexed => Some (s, indexed) | _ => None end)
    tr.

Definition closed (tr : list event) : list http.Response :=
  omap (fun e => match act e with Body_Close r => Some r | _ => None end) tr.

(** The response a call returned, when it is a call of the HTTP client that
    returned one. *)
Definition responseOf (e : event) : option http.Response :=
  match e with
  | Event a x =>
      match a as a0 return response a0 -> option http.Response with
      | DefaultClient_Do _ => fun x => match x with Ok r => Some r | Err _ => None end
      | _ => fun _ => None
      end x
  end.

Definition responses (tr : list event) : list http.Response := omap responseOf tr.

(** The error a call returned, when it is a copy to stdout. *)
Definition copyErrorOf (e : event) : option error :=
  match e with
  | Event a x =>
      match a as a0 return response a0 -> option error with
      | io_Copy_Stdout _ => fun x => Some (snd x)
      | _ => fun _ => None
      end x
  end.

Definition copyErrors (tr : list event) : list error := omap copyErrorOf tr.


Definition shardStatsCalls (tr : list event) : list string :=
  omap (fun e => match act e with printShardStats path => Some path | _ => None end) tr.

Definition metaDataCalls (tr : list event) : list string :=
  omap (fun e => match act e with printMetaData path => Some path | _ => None end) tr.

(** The calls of [fmt.Println], one per number. *)
Definition printlns (ids : list Z) : list event :=
  map (fun r => Event (fmt_Println r) tt) ids.

End Debug.

(** ** A process to run the commands in

    The configuration has no content, a server is its index directory, a URL
    is its text; the environment sets DATA_DIR to /data/index and nothing
    else.  The handler is scripted: [newServer] and [forceIndex] return what
    the script says, the HTTP client answers every request with one body, and
    the world is what [log.Println] has written. *)

Definition sampleGetenvString (key default : string) : string :=
  if String.eqb key "DATA_DIR" then "/data/index" else default.

Definition sampleGetenvInt64 (key : string) (default : Z) : Z := default.

Definition sampleParseRest (rawURL : string) : result string := Ok rawURL.
Definition sampleSetFragment (u frag : string) : result string := Ok (u +:+ "#" +:+ frag).

Definition sampleMerge : Command (rootConfig := unit) (Server := string) (URL := string) :=
  debugMerge sampleGetenvInt64 sampleGetenvString false "/home/zoekt/.zoekt".

Definition sampleDebug : Command (rootConfig := unit) (Server := string) (URL := string) :=
  debugCmd [] tt (fun s => s) sampleGetenvInt64 sampleGetenvString false "/home/zoekt/.zoekt"
    sampleParseRest sampleSetFragment (fun u => u).

Definition scripted (server : result string) (forced : string * error)
  : handler (rootConfig := unit) (Server := string) (URL := string) (list string) :=
  fun a w =>
    match a as a0 return response a0 * list string with
    | newServer _ => (server, w)
    | forceIndex _ _ => (forced, w)
    | log_Println msg => (tt, (w ++ [msg])%list)
    | printShardStats _ => (nil, w)
    | printMetaData _ => (nil, w)
    | setDebug => (tt, w)
    | doMerge _ _ _ => (nil, w)
    | listIndexed _ => ([], w)
    | Sourcegraph_List _ indexed => (Ok indexed, w)
    | fmt_Println _ => (tt, w)
    | DefaultClient_Do _ => (Ok (http.mkResponse 200 "Position Name ID IsOnQueue Age Branches"), w)
    | io_Copy_Stdout body => ((len body, nil), w)
    | Body_Close _ => (nil, w)
    end.

(** An engine to go with it: a shard names its one repository in its first
    byte, merging is concatenation, the compound shard is named after its
    first input; and a store of three shards. *)
Definition sampleRepos (content : string) : list Z :=
  match content with
  | EmptyString => []
  | String c _ => [byte c]
  end.

Definition sampleCompound (b : list ShardMergeEngine.ShardMeta) : string :=
  match b with
  | [] => "compound.zoekt"
  | s :: _ => "compound-" +:+ ShardMergeEngine.Path s
  end.

Definition sampleTmp (path : string) : string := path +:+ ".tmp".

Definition sampleMergeShards (contents : list string) : string :=
  fold_right String.append "" contents.

Definition sampleStore : gmap string (gmap string string) :=
  {[ "/data/index" :=
       list_to_map [("a.zoekt", "aaaa"); ("b.zoekt", "bb"); ("c.zoekt", "cccccccccccc")] ]}.

Definition sampleEngine
  : handler (rootConfig := unit) (Server := string) (URL := string) (list string * MergeWorld) :=
  withEngine sampleRepos (fun _ => O) sampleMergeShards sampleCompound sampleTmp
    (fun _ _ => false) (scripted (Ok "/data/index") ("", nil)).

(** The same engine on a full disk: every write fails. *)
Definition sampleFullDisk
  : handler (rootConfig := unit) (Server := string) (URL := string) (list string * MergeWorld) :=
  withEngine sampleRepos (fun _ => O) sampleMergeShards sampleCompound sampleTmp
    (fun _ _ => true) (scripted (Ok "/data/index") ("", nil)).

(** A process as [h], but with [indexed] as the repositories of every index
    directory. *)
Definition withIndexed (indexed : list Z)
    (h : handler (rootConfig := unit) (Server := string) (URL := string) (list string))
  : handler (rootConfig := unit) (Server := string) (URL := string) (list string) :=
  fun a w =>
    match a as a0 return response a0 * list string with
    | listIndexed _ => (indexed, w)
    | a0 => h a0 w
    end.

(** A server to go with it.  The queue is the one of the specification's
    example, a and b enqueued at 0 and 1 with priority 5 and c at 2 with
    priority 9, and then a once more at 3 with another commit; d is known
    and not on the queue.  Times are written in seconds, cells are set apart
    by spaces and rows by newlines. *)
Definition sampleDuration (d : Z) : string := fmt.formatUint (Z.to_N d) +:+ "s".

Definition sampleLayout (rows : list (list string)) : string :=
  IndexingQueue.joinWith (String "010" EmptyString) (map (IndexingQueue.joinWith " ") rows).

Definition sampleQueue : IndexingQueue.Queue :=
  IndexingQueue.EnqueueAll
    [ (0, 1, 5, [("main", "a0")]);
      (1, 2, 5, [("main", "b0")]);
      (2, 3, 9, [("main", "c0"); ("dev", "c1")]);
      (3, 1, 5, [("main", "a1")]) ] [].

Definition sampleCatalog : list IndexingQueue.Repository :=
  [ IndexingQueue.mkRepository 1 "a" [("main", "a0")];
    IndexingQueue.mkRepository 2 "b" [];
    IndexingQueue.mkRepository 3 "c" [("main", "c0")];
    IndexingQueue.mkRepository 4 "d" [("main", "d0")] ].

Definition sampleServer : QueueWorld := mkQueueWorld 10 sampleCatalog sampleQueue.

Definition sampleQueueServer
  : handler (rootConfig := unit) (Server := string) (URL := string) (list string * QueueWorld) :=
  withQueue sampleDuration sampleLayout (scripted (Ok "/data/index") ("", nil)).

(** * Facts *)

(** ** The library functions at work *)

Example Atoi_42 : strconv.Atoi "42" = (42, nil).
Proof. reflexivity. Qed.
Example Atoi_minus_1 : strconv.Atoi "-1" = (-1, nil).
Proof. reflexivity. Qed.
Example Atoi_empty : strconv.Atoi "" = (0, Some (NumError "Atoi" "" ErrSyntax)).
Proof. reflexivity. Qed.
Example Atoi_abc : strconv.Atoi "12a" = (0, Some (NumError "Atoi" "12a" ErrSyntax)).
Proof. reflexivity. Qed.
Example Atoi_max : strconv.Atoi "9223372036854775807" = (9223372036854775807, nil).
Proof. vm_compute. reflexivity. Qed.
Example Atoi_min : strconv.Atoi "-9223372036854775808" = (-9223372036854775808, nil).
Proof. vm_compute. reflexivity. Qed.
Example Atoi_over :
  strconv.Atoi "9223372036854775808"
  = (9223372036854775807, Some (NumError "Atoi" "9223372036854775808" ErrRange)).
Proof. vm_compute. reflexivity. Qed.
Example Atoi_huge :
  snd (strconv.Atoi "99999999999999999999999")
  = Some (NumError "Atoi" "99999999999999999999999" ErrRange).
Proof. vm_compute. reflexivity. Qed.

Example TrimSpace_ex : strings.TrimSpace "  a b  " = "a b".
Proof. reflexivity. Qed.
Example Cut_ex : strings.Cut "ab#cd#e" "#" = ("ab", "cd#e", true).
Proof. reflexivity. Qed.

Example formatUint_6072 : fmt.formatUint 6072 = "6072".
Proof. reflexivity. Qed.
Example formatUint_0 : fmt.formatUint 0 = "0".
Proof. reflexivity. Qed.
Example formatUint_max : fmt.formatUint 18446744073709551615 = "18446744073709551615".
Proof. vm_compute. reflexivity. Qed.

Example validMethod_GET : http.validMethod http.MethodGet = true.
Proof. reflexivity. Qed.

(** ** Wrap-around *)

Lemma wrapInt64_small (z : Z) : - 2^63 <= z < 2^63 -> wrapInt64 z = z.
Proof. intros H. unfold wrapInt64. rewrite Z.mod_small; lia. Qed.

Lemma wrapInt64_mul_l (a b : Z) : wrapInt64 (wrapInt64 a * b) = wrapInt64 (a * b).
Proof.
  unfold wrapInt64. f_equal.
  pose proof (Z.div_mod (a + 2^63) (2^64) ltac:(lia)) as E.
  set (q := (a + 2^63) / 2^64) in *. set (r := (a + 2^63) mod 2^64) in *.
  replace (a * b + 2^63) with ((r - 2^63) * b + 2^63 + (q * b) * 2^64) by nia.
  rewrite Z.mod_add by lia. reflexivity.
Qed.

(** [*targetSize*1024*1024], two multiplications on [int64], is the product
    by [1024*1024] reduced once. *)
Lemma targetSizeBytes_wraps (t : Z) :
  mulInt64 (mulInt64 t 1024) 1024 = wrapInt64 (t * (1024 * 1024)).
Proof. unfold mulInt64. rewrite wrapInt64_mul_l. f_equal. ring. Qed.

(** ** [strconv.Atoi] reads signed decimal numerals *)

Lemma byte_range c : 0 <= byte c < 256.
Proof.
  unfold byte. pose proof (N_ascii_bounded c). lia.
Qed.

Lemma digitOf_digit c : isDigit c = true -> strconv.digitOf c = byte c - 48 /\ 0 <= byte c - 48 <= 9.
Proof.
  unfold isDigit, strconv.digitOf. intros H.
  apply andb_prop in H as [H1 H2]. apply Z.leb_le in H1, H2.
  rewrite Z.mod_small by lia. lia.
Qed.

Lemma digitOf_other c : isDigit c = false -> 9 < strconv.digitOf c.
Proof.
  unfold isDigit, strconv.digitOf. intros H. pose proof (byte_range c) as Hb.
  apply andb_false_iff in H as [H | H].
  - apply Z.leb_gt in H.
    replace ((byte c - 48) mod 256) with (byte c + 208); [lia |].
    apply (Z.mod_unique (byte c - 48) 256 (-1)); lia.
  - apply Z.leb_gt in H. rewrite Z.mod_small by lia. lia.
Qed.

Lemma decimalValue_ge s : forall n v, 0 <= n -> decimalValue s n = Some v -> n <= v.
Proof.
  induction s as [| c r IH]; cbn [decimalValue]; intros n v Hn H.
  - injection H as <-. lia.
  - destruct (isDigit c) eqn:Hd; [| discriminate].
    apply digitOf_digit in Hd as [_ Hd].
    apply IH in H; lia.
Qed.

Lemma decimalValue_lt s : forall n v, 0 <= n -> decimalValue s n = Some v ->
  v < (n + 1) * 10 ^ Z.of_nat (String.length s).
Proof.
  induction s as [| c r IH]; cbn [decimalValue String.length]; intros n v Hn H.
  - injection H as <-. cbn. lia.
  - destruct (isDigit c) eqn:Hd; [| discriminate].
    apply digitOf_digit in Hd as [_ Hd].
    apply IH in H; [| lia].
    rewrite Nat2Z.inj_succ, Z.pow_succ_r by lia.
    assert (0 < 10 ^ Z.of_nat (String.length r)) by (apply Z.pow_pos_nonneg; lia).
    nia.
Qed.

(** The fast path: no wrap-around below 19 digits. *)
Lemma atoiLoop_decimalValue s : forall n,
  0 <= n -> (n + 1) * 10 ^ Z.of_nat (String.length s) <= 2^63 ->
  strconv.atoiLoop s n = decimalValue s n.
Proof.
  induction s as [| c r IH]; cbn [strconv.atoiLoop decimalValue String.length]; intros n Hn Hb.
  - reflexivity.
  - rewrite Nat2Z.inj_succ, Z.pow_succ_r in Hb by lia.
    assert (Hp : 0 < 10 ^ Z.of_nat (String.length r)) by (apply Z.pow_pos_nonneg; lia).
    destruct (isDigit c) eqn:Hd.
    + apply digitOf_digit in Hd as [-> Hd].
      replace (9 <? byte c - 48) with false by (symmetry; apply Z.ltb_ge; lia).
      rewrite wrapInt64_small by nia.
      replace (n * 10 + (byte c - 48)) with (10 * n + (byte c - 48)) by ring.
      apply IH; nia.
    + apply digitOf_other in Hd. apply Z.ltb_lt in Hd. rewrite Hd. reflexivity.
Qed.

Lemma parseUintLoop_decimalValue s0 s : forall n, 0 <= n <= 2^64 - 1 ->
  match strconv.parseUintLoop s0 (2^64 - 1) 1844674407370955162 s n with
  | (v, None) => decimalValue s n = Some v /\ v <= 2^64 - 1
  | (v, Some e) =>
      (forall v', decimalValue s n = Some v' -> 2^64 - 1 < v')
      /\ (strconv.otherThanRange (Some e) = true \/ v = 2^64 - 1)
  end.
Proof.
  induction s as [| c r IH]; cbn [strconv.parseUintLoop decimalValue]; intros n Hn.
  - split; [reflexivity | lia].
  - destruct (isDigit c) eqn:Hd.
    + apply digitOf_digit in Hd as [-> Hd].
      replace (9 <? byte c - 48) with false by (symmetry; apply Z.ltb_ge; lia).
      destruct (1844674407370955162 <=? n) eqn:Hcut.
      * apply Z.leb_le in Hcut. split; [| right; reflexivity].
        intros v' Hv. apply decimalValue_ge in Hv; lia.
      * apply Z.leb_gt in Hcut. unfold wrapUint64.
        rewrite (Z.mod_small (n * 10)) by lia.
        destruct (Z_lt_le_dec (n * 10 + (byte c - 48)) (2^64)) as [Hfit | Hover].
        -- rewrite (Z.mod_small (n * 10 + (byte c - 48))) by lia.
           replace (n * 10 + (byte c - 48) <? n * 10) with false
             by (symmetry; apply Z.ltb_ge; lia).
           replace (2 ^ 64 - 1 <? n * 10 + (byte c - 48)) with false
             by (symmetry; apply Z.ltb_ge; lia).
           cbn [orb].
           replace (10 * n + (byte c - 48)) with (n * 10 + (byte c - 48)) by ring.
           apply IH. lia.
        -- replace ((n * 10 + (byte c - 48)) mod 2 ^ 64)
             with (n * 10 + (byte c - 48) - 2^64)
             by (apply (Z.mod_unique _ (2^64) 1); lia).
           replace (n * 10 + (byte c - 48) - 2 ^ 64 <? n * 10) with true
             by (symmetry; apply Z.ltb_lt; lia).
           cbn [orb]. split; [| right; reflexivity].
           intros v' Hv. apply decimalValue_ge in Hv; lia.
    + apply digitOf_other in Hd. apply Z.ltb_lt in Hd. rewrite Hd.
      split; [discriminate | left; reflexivity].
Qed.

Lemma ParseUint_decimalValue (c : ascii) (r : string) :
  match strconv.ParseUint (String c r) with
  | (v, None) => decimalValue (String c r) 0 = Some v /\ v <= 2^64 - 1
  | (v, Some e) =>
      (forall v', decimalValue (String c r) 0 = Some v' -> 2^64 - 1 < v')
      /\ (strconv.otherThanRange (Some e) = true \/ v = 2^64 - 1)
  end.
Proof.
  unfold strconv.ParseUint.
  change (strconv.maxUint64 / 10 + 1) with 1844674407370955162.
  change (wrapUint64 (2 ^ strconv.intSize - 1)) with (2^64 - 1).
  apply parseUintLoop_decimalValue. lia.
Qed.

Lemma parseIntUnsigned_decimalValue (s0 : string) (neg : bool) (c : ascii) (r : string) :
  match decimalValue (String c r) 0 with
  | Some v =>
      if inInt (if neg then - v else v)
      then strconv.parseIntUnsigned s0 neg (String c r) = (if neg then - v else v, nil)
      else snd (strconv.parseIntUnsigned s0 neg (String c r)) <> nil
  | None => snd (strconv.parseIntUnsigned s0 neg (String c r)) <> nil
  end.
Proof.
  unfold strconv.parseIntUnsigned.
  change (2 ^ (strconv.intSize - 1)) with (2^63).
  pose proof (ParseUint_decimalValue c r) as HU.
  destruct (strconv.ParseUint (String c r)) as [un [e |]].
  - destruct HU as [Hbig Hkind].
    assert (Herr : snd (if strconv.otherThanRange (Some e)
              then (0, strconv.setFuncNum "ParseInt" s0 (Some e))
              else if negb neg && (2^63 <=? un)
              then (wrapInt64 (2^63 - 1), Some (strconv.rangeError "ParseInt" s0))
              else if neg && (2^63 <? un)
              then (wrapInt64 (- 2^63), Some (strconv.rangeError "ParseInt" s0))
              else (if neg then wrapInt64 (- wrapInt64 un) else wrapInt64 un, nil)) <> nil).
    { destruct Hkind as [Hk | ->].
      - rewrite Hk. cbn [snd]. destruct e; try discriminate.
      - destruct (strconv.otherThanRange (Some e)).
        + cbn [snd]. destruct e; discriminate.
        + destruct neg; cbn; discriminate. }
    destruct (decimalValue (String c r) 0) as [v' |]; [| exact Herr].
    specialize (Hbig v' eq_refl).
    replace (inInt (if neg then - v' else v')) with false; [exact Herr |].
    symmetry. unfold inInt. destruct neg.
    + apply andb_false_iff. left. apply Z.leb_gt. lia.
    + apply andb_false_iff. right. apply Z.ltb_ge. lia.
  - destruct HU as [Hdv Hle].
    assert (Hun : 0 <= un) by (apply (decimalValue_ge (String c r) 0); [lia | exact Hdv]).
    rewrite Hdv. cbn [strconv.otherThanRange].
    clear Hle Hdv. unfold inInt. destruct neg; cbn [negb andb].
    + destruct (2^63 <? un) eqn:Hc.
      * apply Z.ltb_lt in Hc.
        replace (- 2^63 <=? - un) with false by (symmetry; apply Z.leb_gt; lia).
        cbn. discriminate.
      * apply Z.ltb_ge in Hc.
        replace (- 2^63 <=? - un) with true by (symmetry; apply Z.leb_le; lia).
        replace (- un <? 2^63) with true by (symmetry; apply Z.ltb_lt; lia).
        cbn [andb]. f_equal.
        destruct (Z.eq_dec un (2^63)) as [-> | Hne]; [reflexivity |].
        rewrite (wrapInt64_small un) by lia. apply wrapInt64_small. lia.
    + destruct (2^63 <=? un) eqn:Hc.
      * apply Z.leb_le in Hc.
        replace (un <? 2^63) with false by (symmetry; apply Z.ltb_ge; lia).
        rewrite andb_false_r. cbn. discriminate.
      * apply Z.leb_gt in Hc.
        replace (- 2^63 <=? un) with true by (symmetry; apply Z.leb_le; lia).
        replace (un <? 2^63) with true by (symmetry; apply Z.ltb_lt; lia).
        cbn [andb]. f_equal. apply wrapInt64_small. lia.
Qed.

Lemma ParseInt_signedDecimal (s : string) :
  match signedDecimal s with
  | Some n => if inInt n then strconv.ParseInt s = (n, nil) else snd (strconv.ParseInt s) <> nil
  | None => snd (strconv.ParseInt s) <> nil
  end.
Proof.
  destruct s as [| c r]; [discriminate |].
  unfold strconv.ParseInt, signedDecimal.
  destruct (Ascii.eqb c "-") eqn:Hminus.
  - apply Ascii.eqb_eq in Hminus as ->. cbn [Ascii.eqb Bool.eqb orb andb].
    destruct r as [| c' r']; [cbn; discriminate |].
    pose proof (parseIntUnsigned_decimalValue (String "-" (String c' r')) true c' r') as H.
    destruct (decimalValue (String c' r') 0); exact H.
  - destruct (Ascii.eqb c "+") eqn:Hplus; cbn [orb].
    + destruct r as [| c' r']; [cbn; discriminate |].
      pose proof (parseIntUnsigned_decimalValue (String c (String c' r')) false c' r') as H.
      destruct (decimalValue (String c' r') 0); exact H.
    + pose proof (parseIntUnsigned_decimalValue (String c r) false c r) as H.
      destruct (decimalValue (String c r) 0); exact H.
Qed.

Lemma pow10_le (k : nat) : (k <= 18)%nat -> 10 ^ Z.of_nat k <= 2^63.
Proof.
  intros H. transitivity (10 ^ 18); [| lia].
  apply Z.pow_le_mono_r; lia.
Qed.

(** [strconv.Atoi] against the reading of its argument as a signed decimal
    numeral: it returns the number when there is one and it fits an [int],
    and an error otherwise. *)
Lemma Atoi_signedDecimal (s : string) :
  match signedDecimal s with
  | Some n => if inInt n then strconv.Atoi s = (n, nil) else snd (strconv.Atoi s) <> nil
  | None => snd (strconv.Atoi s) <> nil
  end.
Proof.
  unfold strconv.Atoi.
  destruct ((0 <? len s) && (len s <? 19)) eqn:Hfast.
  - destruct s as [| c r]; [discriminate |].
    apply andb_prop in Hfast as [_ Hlen]. apply Z.ltb_lt in Hlen.
    unfold len in Hlen. cbn [String.length] in Hlen.
    unfold signedDecimal.
    assert (Hloop : forall t, (String.length t <= 18)%nat ->
              strconv.atoiLoop t 0 = decimalValue t 0).
    { intros t Ht. apply atoiLoop_decimalValue; [lia |].
      rewrite Z.mul_1_l. apply pow10_le. exact Ht. }
    assert (Hval : forall t v, (String.length t <= 18)%nat -> decimalValue t 0 = Some v ->
              0 <= v < 2^63).
    { intros t v Ht Hv. split; [apply (decimalValue_ge t 0); [lia | exact Hv] |].
      apply decimalValue_lt in Hv; [| lia]. pose proof (pow10_le _ Ht). lia. }
    destruct (Ascii.eqb c "-") eqn:Hminus; [| destruct (Ascii.eqb c "+") eqn:Hplus];
      cbn [orb andb].
    + destruct r as [| c' r']; [cbn; discriminate |].
      replace (len (String c' r') <? 1) with false
        by (symmetry; apply Z.ltb_ge; unfold len; cbn [String.length]; lia).
      rewrite Hloop by lia.
      destruct (decimalValue (String c' r') 0) as [v |] eqn:Hv; cbn [option_map snd];
        [| discriminate].
      apply Hval in Hv; [| lia].
      unfold inInt.
      replace (- 2^63 <=? - v) with true by (symmetry; apply Z.leb_le; lia).
      replace (- v <? 2^63) with true by (symmetry; apply Z.ltb_lt; lia).
      cbn [andb]. f_equal. apply wrapInt64_small. lia.
    + destruct r as [| c' r']; [cbn; discriminate |].
      replace (len (String c' r') <? 1) with false
        by (symmetry; apply Z.ltb_ge; unfold len; cbn [String.length]; lia).
      rewrite Hloop by lia.
      destruct (decimalValue (String c' r') 0) as [v |] eqn:Hv; cbn [snd]; [| discriminate].
      apply Hval in Hv; [| lia].
      unfold inInt.
      replace (- 2^63 <=? v) with true by (symmetry; apply Z.leb_le; lia).
      replace (v <? 2^63) with true by (symmetry; apply Z.ltb_lt; lia).
      reflexivity.
    + rewrite Hloop by (cbn [String.length]; lia).
      destruct (decimalValue (String c r) 0) as [v |] eqn:Hv; cbn [snd]; [| discriminate].
      apply Hval in Hv; [| cbn [String.length]; lia].
      unfold inInt.
      replace (- 2^63 <=? v) with true by (symmetry; apply Z.leb_le; lia).
      replace (v <? 2^63) with true by (symmetry; apply Z.ltb_lt; lia).
      reflexivity.
  - pose proof (ParseInt_signedDecimal s) as H.
    destruct (strconv.ParseInt s) as [i e]. cbn [snd] in H |- *.
    destruct (signedDecimal s) as [n |].
    + destruct (inInt n).
      * injection H as -> ->. reflexivity.
      * destruct e as [e |]; [destruct e; discriminate | contradiction].
    + destruct e as [e |]; [destruct e; discriminate | contradiction].
Qed.

Lemma Atoi_malformed (s : string) : malformed s = true -> snd (strconv.Atoi s) <> nil.
Proof.
  unfold malformed. intros H. pose proof (Atoi_signedDecimal s) as HA.
  destruct (signedDecimal s) as [n |]; [| exact HA].
  destruct (inInt n); [discriminate | exact HA].
Qed.

Lemma Atoi_well_formed (s : string) :
  malformed s = false -> exists n, signedDecimal s = Some n /\ strconv.Atoi s = (n, nil).
Proof.
  unfold malformed. intros H. pose proof (Atoi_signedDecimal s) as HA.
  destruct (signedDecimal s) as [n |]; [| discriminate].
  destruct (inInt n); [| discriminate]. exists n. split; [reflexivity | exact HA].
Qed.

Lemma Atoi_of_signedDecimal (s : string) (n : Z) :
  signedDecimal s = Some n -> inInt n = true -> strconv.Atoi s = (n, nil).
Proof.
  intros Hs Hn. pose proof (Atoi_signedDecimal s) as HA.
  rewrite Hs, Hn in HA. exact HA.
Qed.

Lemma malformed_false_iff (s : string) :
  malformed s = false <-> exists n, signedDecimal s = Some n /\ inInt n = true.
Proof.
  unfold malformed. split.
  - destruct (signedDecimal s) as [n |]; [| discriminate].
    destruct (inInt n) eqn:Hn; [| discriminate]. intros _. exists n.
    split; [reflexivity | exact Hn].
  - intros (n & -> & ->). reflexivity.
Qed.

Lemma Atoi_nil_well_formed (s : string) (n : Z) :
  strconv.Atoi s = (n, nil) -> signedDecimal s = Some n /\ inInt n = true.
Proof.
  intros HA. destruct (malformed s) eqn:Hm.
  - apply Atoi_malformed in Hm. rewrite HA in Hm. contradiction.
  - apply malformed_false_iff in Hm as (m & Hs & Hm).
    pose proof (Atoi_of_signedDecimal s m Hs Hm) as HA'.
    rewrite HA in HA'. injection HA' as ->. split; assumption.
Qed.


(** ** Strings put together *)

Lemma append_cons (c : ascii) (a b : string) : String c a +:+ b = String c (a +:+ b).
Proof. reflexivity. Qed.

Lemma append_empty_r (a : string) : a +:+ EmptyString = a.
Proof. induction a as [| c a IH]; [| rewrite append_cons, IH]; reflexivity. Qed.

Lemma list_ascii_of_string_app (a b : string) :
  list_ascii_of_string (a +:+ b)
  = (list_ascii_of_string a ++ list_ascii_of_string b)%list.
Proof.
  induction a as [| c a IH]; [reflexivity |].
  rewrite append_cons. cbn [list_ascii_of_string]. rewrite IH. reflexivity.
Qed.

Lemma stringContainsCTLByte_app (a b : string) :
  url.stringContainsCTLByte (a +:+ b)
  = url.stringContainsCTLByte a || url.stringContainsCTLByte b.
Proof.
  unfold url.stringContainsCTLByte. rewrite list_ascii_of_string_app. apply existsb_app.
Qed.

(** Without the separator, [strings.Cut] returns the string whole. *)
Lemma Cut_not_found (s : string) (sep : ascii) :
  snd (strings.Cut s sep) = false -> fst (fst (strings.Cut s sep)) = s.
Proof.
  induction s as [| c s IH]; cbn [strings.Cut]; [reflexivity |].
  destruct (Ascii.eqb c sep); [discriminate |].
  destruct (strings.Cut s sep) as [[before after] found]. cbn [fst snd] in *.
  intros H. rewrite IH by exact H. reflexivity.
Qed.

(** What comes before the separator in two strings put together. *)
Lemma Cut_app_before (a b : string) (sep : ascii) :
  fst (fst (strings.Cut (a +:+ b) sep))
  = if snd (strings.Cut a sep) then fst (fst (strings.Cut a sep))
    else a +:+ fst (fst (strings.Cut b sep)).
Proof.
  induction a as [| c a IH]; [reflexivity |].
  rewrite append_cons. cbn [strings.Cut].
  destruct (Ascii.eqb c sep); [reflexivity |].
  destruct (strings.Cut (a +:+ b) sep) as [[before after] found].
  destruct (strings.Cut a sep) as [[before' after'] found']. cbn [fst snd] in *.
  rewrite IH. destruct found'; reflexivity.
Qed.

(** ** [%d] writes decimal numerals *)

Lemma decimalValue_app (a b : string) : forall m,
  decimalValue (a +:+ b) m
  = match decimalValue a m with
    | Some v => decimalValue b v
    | None => None
    end.
Proof.
  induction a as [| c a IH]; intros m; [reflexivity |].
  rewrite append_cons. cbn [decimalValue].
  destruct (isDigit c); [apply IH | reflexivity].
Qed.

Lemma decimalValue_digit (r : N) (m : Z) :
  (r < 10)%N ->
  decimalValue (String (ascii_of_N (48 + r)) EmptyString) m = Some (10 * m + Z.of_N r).
Proof.
  intros Hr. cbn [decimalValue]. unfold isDigit, byte.
  rewrite N_ascii_embedding by lia.
  replace (48 <=? Z.of_N (48 + r)) with true by (symmetry; apply Z.leb_le; lia).
  replace (Z.of_N (48 + r) <=? 57) with true by (symmetry; apply Z.leb_le; lia).
  cbn [andb]. f_equal. lia.
Qed.

Lemma append_assoc_1 (a : string) (c : ascii) (b : string) :
  a +:+ String c b = (a +:+ String c EmptyString) +:+ b.
Proof.
  induction a as [| x a IH]; [reflexivity |].
  rewrite !append_cons, IH. reflexivity.
Qed.

Lemma length_append_1 (a : string) (c : ascii) :
  String.length (a +:+ String c EmptyString) = S (String.length a).
Proof.
  induction a as [| x a IH]; [reflexivity |].
  rewrite append_cons. cbn [String.length]. rewrite IH. reflexivity.
Qed.

Lemma digits_decimal (fuel : nat) : forall (n : N) (acc : string),
  (n < 2 ^ N.of_nat fuel)%N ->
  (0 < fuel)%nat ->
  exists ds,
    fmt.digits fuel n acc = ds +:+ acc
    /\ ds <> EmptyString
    /\ forall m, decimalValue ds m
                 = Some (m * 10 ^ Z.of_nat (String.length ds) + Z.of_N n).
Proof.
  induction fuel as [| fuel IH]; intros n acc Hn Hfuel; [lia |].
  cbn [fmt.digits].
  assert (Hr : (n mod 10 < 10)%N) by (apply N.mod_lt; lia).
  pose proof (N.div_mod n 10 ltac:(lia)) as Hdm.
  destruct (n / 10 =? 0)%N eqn:Hq.
  - apply N.eqb_eq in Hq. exists (String (ascii_of_N (48 + n mod 10)) EmptyString).
    split; [reflexivity |]. split; [discriminate |].
    intros m. rewrite decimalValue_digit by exact Hr. f_equal.
    cbn [String.length]. change (10 ^ Z.of_nat 1) with 10. lia.
  - apply N.eqb_neq in Hq.
    assert (Hq2 : (n / 10 < 2 ^ N.of_nat fuel)%N).
    { rewrite Nat2N.inj_succ, N.pow_succ_r' in Hn.
      apply N.Div0.div_lt_upper_bound. lia. }
    assert (Hf : (0 < fuel)%nat).
    { destruct fuel; [| lia]. cbn in Hq2. lia. }
    destruct (IH (n / 10)%N (String (ascii_of_N (48 + n mod 10)) acc) Hq2 Hf)
      as (ds & Hds & Hne & Hval).
    exists (ds +:+ String (ascii_of_N (48 + n mod 10)) EmptyString).
    split; [rewrite Hds; apply append_assoc_1 |].
    split; [destruct ds; [contradiction | discriminate] |].
    intros m. rewrite decimalValue_app, Hval, decimalValue_digit by exact Hr.
    f_equal. rewrite length_append_1, Nat2Z.inj_succ, Z.pow_succ_r by lia. lia.
Qed.

Lemma formatUint_decimal (n : N) :
  fmt.formatUint n <> EmptyString
  /\ decimalValue (fmt.formatUint n) 0 = Some (Z.of_N n).
Proof.
  unfold fmt.formatUint.
  destruct (digits_decimal (S (N.to_nat (N.log2 n))) n EmptyString) as (ds & Hds & Hne & Hval).
  - rewrite Nat2N.inj_succ, N2Nat.id.
    destruct (N.eq_dec n 0%N) as [-> | Hpos]; [cbn; lia |].
    apply N.log2_spec. lia.
  - lia.
  - rewrite Hds, append_empty_r.
    split; [exact Hne |]. rewrite Hval. reflexivity.
Qed.

(** A decimal numeral without a sign is read as itself. *)
Lemma signedDecimal_unsigned (d : string) (n : Z) :
  d <> EmptyString -> decimalValue d 0 = Some n -> signedDecimal d = Some n.
Proof.
  destruct d as [| c r]; [contradiction |]. intros _ Hd. unfold signedDecimal.
  cbn [decimalValue] in Hd. destruct (isDigit c) eqn:Hc; [| discriminate].
  destruct (Ascii.eqb c "-") eqn:Hm; [apply Ascii.eqb_eq in Hm; subst c; discriminate |].
  destruct (Ascii.eqb c "+") eqn:Hp; [apply Ascii.eqb_eq in Hp; subst c; discriminate |].
  cbn [decimalValue]. rewrite Hc. exact Hd.
Qed.


(** A repository ID proper is never malformed: what is malformed is no
    repository ID, and the two differ on the numerals of an [int] outside
    [0 .. 2^32 - 1]. *)
Lemma repositoryID_well_formed (s : string) (n : Z) :
  repositoryID s = Some n ->
  signedDecimal s = Some n /\ 0 <= n < 2^32 /\ malformed s = false.
Proof.
  unfold repositoryID. intros H.
  assert (Hne : s <> EmptyString) by (destruct s; [discriminate | discriminate]).
  destruct s as [| c r]; [contradiction |].
  destruct (decimalValue (String c r) 0) as [v |] eqn:Hv; [| discriminate].
  destruct (v <? 2^32) eqn:Hlt; [| discriminate]. injection H as ->.
  apply Z.ltb_lt in Hlt.
  pose proof (decimalValue_ge _ _ _ (Z.le_refl 0) Hv) as Hge.
  pose proof (signedDecimal_unsigned _ _ Hne Hv) as Hs.
  split; [exact Hs |]. split; [lia |].
  unfold malformed. rewrite Hs. unfold inInt.
  replace (- 2^63 <=? n) with true by (symmetry; apply Z.leb_le; lia).
  replace (n <? 2^63) with true by (symmetry; apply Z.ltb_lt; lia).
  reflexivity.
Qed.

(** A string without the separator is cut into itself and nothing. *)
Lemma Cut_not_found_eq (s : string) (sep : ascii) :
  snd (strings.Cut s sep) = false -> strings.Cut s sep = (s, EmptyString, false).
Proof.
  induction s as [| c s IH]; cbn [strings.Cut]; [reflexivity |].
  destruct (Ascii.eqb c sep); [discriminate |].
  destruct (strings.Cut s sep) as [[before after] found]. cbn [fst snd] in *.
  intros H. specialize (IH H). injection IH as -> -> ->. reflexivity.
Qed.

Lemma Cut_app_not_found (a b : string) (sep : ascii) :
  snd (strings.Cut a sep) = false -> snd (strings.Cut b sep) = false ->
  snd (strings.Cut (a +:+ b) sep) = false.
Proof.
  intros Ha Hb. induction a as [| c a IH]; [exact Hb |].
  rewrite append_cons. cbn [strings.Cut] in *.
  destruct (Ascii.eqb c sep); [discriminate |].
  destruct (strings.Cut (a +:+ b) sep) as [[before after] found].
  destruct (strings.Cut a sep) as [[before' after'] found']. cbn [fst snd] in *.
  apply IH. exact Ha.
Qed.

(** A decimal numeral holds neither [#] nor a control byte. *)
Lemma decimalValue_plain (s : string) : forall m v,
  decimalValue s m = Some v ->
  snd (strings.Cut s "#") = false /\ url.stringContainsCTLByte s = false.
Proof.
  induction s as [| c s IH]; intros m v H; [split; reflexivity |].
  cbn [decimalValue] in H. destruct (isDigit c) eqn:Hc; [| discriminate].
  destruct (IH _ _ H) as [Hcut Hctl].
  assert (Hne : Ascii.eqb c "#" = false).
  { destruct (Ascii.eqb c "#") eqn:E; [| reflexivity].
    apply Ascii.eqb_eq in E. subst c. discriminate. }
  unfold isDigit in Hc. apply andb_true_iff in Hc as [Hlo Hhi].
  apply Z.leb_le in Hlo, Hhi.
  split.
  - cbn [strings.Cut]. rewrite Hne.
    destruct (strings.Cut s "#") as [[before after] found]. exact Hcut.
  - unfold url.stringContainsCTLByte in *. cbn [list_ascii_of_string existsb].
    rewrite Hctl.
    replace (byte c <? 32) with false by (symmetry; apply Z.ltb_ge; lia).
    replace (byte c =? 127) with false by (symmetry; apply Z.eqb_neq; lia).
    reflexivity.
Qed.


(** ** The queue of the specification *)

Lemma lookup_Some (q : IndexingQueue.Queue) (id : Z) (e : IndexingQueue.QueueEntry) :
  IndexingQueue.lookup q id = Some e -> e ∈ q /\ IndexingQueue.RepositoryID e = id.
Proof.
  induction q as [| x q IH]; cbn [IndexingQueue.lookup]; [discriminate |].
  destruct (IndexingQueue.RepositoryID x =? id) eqn:Hx.
  - intros [= <-]. apply Z.eqb_eq in Hx. split; [left | exact Hx].
  - intros H. destruct (IH H) as [Hin Hid]. split; [right; exact Hin | exact Hid].
Qed.

Lemma lookup_is_Some (q : IndexingQueue.Queue) (id : Z) :
  is_Some (IndexingQueue.lookup q id)
  <-> exists e, e ∈ q /\ IndexingQueue.RepositoryID e = id.
Proof.
  split.
  - intros [e He]. exists e. apply lookup_Some. exact He.
  - intros (e & Hin & Hid). induction q as [| x q IH]; [inversion Hin |].
    cbn [IndexingQueue.lookup].
    destruct (IndexingQueue.RepositoryID x =? id) eqn:Hx; [eexists; reflexivity |].
    apply IH. inversion Hin as [| ? ? ? Hin']; subst; [| exact Hin'].
    apply Z.eqb_neq in Hx. contradiction.
Qed.

(** What [Enqueue] does to the entry of a repository: its own gets the new
    priority and branches and keeps the time it has, or gets the time of the
    call when it is new; any other stays. *)
Lemma Enqueue_lookup (now id priority : Z) (branches : IndexingQueue.BranchCommits)
    (q : IndexingQueue.Queue) (id' : Z) :
  IndexingQueue.lookup (IndexingQueue.Enqueue now id priority branches q) id'
  = if id =? id'
    then Some (IndexingQueue.mkQueueEntry id priority
                 (match IndexingQueue.lookup q id with
                  | Some e => IndexingQueue.EnqueuedAt e
                  | None => now
                  end) branches)
    else IndexingQueue.lookup q id'.
Proof.
  induction q as [| x q IH]; cbn [IndexingQueue.Enqueue IndexingQueue.lookup].
  - cbn [IndexingQueue.RepositoryID]. destruct (id =? id'); reflexivity.
  - destruct (IndexingQueue.RepositoryID x =? id) eqn:Hx;
      cbn [IndexingQueue.lookup IndexingQueue.RepositoryID].
    + apply Z.eqb_eq in Hx. destruct (id =? id') eqn:Hid; [reflexivity |].
      rewrite Hx, Hid. reflexivity.
    + rewrite IH. destruct (IndexingQueue.RepositoryID x =? id') eqn:Hx'; [| reflexivity].
      apply Z.eqb_eq in Hx'. apply Z.eqb_neq in Hx.
      replace (id =? id') with false by (symmetry; apply Z.eqb_neq; lia). reflexivity.
Qed.

(** An entry that is there keeps its [EnqueuedAt] through an [Enqueue],
    whatever repository the call is for. *)
Lemma Enqueue_EnqueuedAt (now id priority : Z) (branches : IndexingQueue.BranchCommits)
    (q : IndexingQueue.Queue) (id' : Z) (e : IndexingQueue.QueueEntry) :
  IndexingQueue.lookup q id' = Some e ->
  exists e',
    IndexingQueue.lookup (IndexingQueue.Enqueue now id priority branches q) id' = Some e'
    /\ IndexingQueue.EnqueuedAt e' = IndexingQueue.EnqueuedAt e.
Proof.
  intros He. rewrite Enqueue_lookup. destruct (id =? id') eqn:Hid.
  - apply Z.eqb_eq in Hid. subst id'. rewrite He. eexists. split; reflexivity.
  - exists e. split; [exact He | reflexivity].
Qed.

Lemma EnqueueAll_EnqueuedAt (calls : list (Z * Z * Z * IndexingQueue.BranchCommits)) :
  forall (q : IndexingQueue.Queue) (id : Z) (e : IndexingQueue.QueueEntry),
    IndexingQueue.lookup q id = Some e ->
    exists e',
      IndexingQueue.lookup (IndexingQueue.EnqueueAll calls q) id = Some e'
      /\ IndexingQueue.EnqueuedAt e' = IndexingQueue.EnqueuedAt e.
Proof.
  unfold IndexingQueue.EnqueueAll.
  induction calls as [| c calls IH]; intros q id e He; cbn [fold_left].
  - exists e. split; [exact He | reflexivity].
  - destruct (Enqueue_EnqueuedAt (fst (fst (fst c))) (snd (fst (fst c))) (snd (fst c)) (snd c)
                q id e He) as (e1 & H1 & Ht1).
    destruct (IH _ id e1 H1) as (e2 & H2 & Ht2).
    exists e2. split; [exact H2 | congruence].
Qed.

(** *** The order of the listing *)

Lemma before_total (a b : IndexingQueue.QueueEntry) :
  IndexingQueue.before a b = false -> IndexingQueue.before b a = true.
Proof. unfold IndexingQueue.before. lia. Qed.

Lemma before_trans (a b c : IndexingQueue.QueueEntry) :
  IndexingQueue.before a b = true -> IndexingQueue.before b c = true ->
  IndexingQueue.before a c = true.
Proof. unfold IndexingQueue.before. lia. Qed.

Lemma ahead_total (a b : IndexingQueue.Listed) :
  IndexingQueue.ahead a b = false -> IndexingQueue.ahead b a = true.
Proof.
  unfold IndexingQueue.ahead. destruct (snd a), (snd b);
    [apply before_total | discriminate | reflexivity | discriminate].
Qed.

Lemma ahead_trans (a b c : IndexingQueue.Listed) :
  IndexingQueue.ahead a b = true -> IndexingQueue.ahead b c = true ->
  IndexingQueue.ahead a c = true.
Proof.
  unfold IndexingQueue.ahead. destruct (snd a), (snd b), (snd c);
    try discriminate; try reflexivity. apply before_trans.
Qed.

Lemma insert_Permutation (x : IndexingQueue.Listed) (l : list IndexingQueue.Listed) :
  IndexingQueue.insert x l ≡ₚ x :: l.
Proof.
  induction l as [| y l IH]; cbn [IndexingQueue.insert]; [reflexivity |].
  destruct (IndexingQueue.ahead x y); [reflexivity |].
  rewrite IH. apply perm_swap.
Qed.

Lemma sort_Permutation (l : list IndexingQueue.Listed) : IndexingQueue.sort l ≡ₚ l.
Proof.
  unfold IndexingQueue.sort. induction l as [| x l IH]; cbn [fold_right]; [reflexivity |].
  rewrite insert_Permutation, IH. reflexivity.
Qed.

Lemma insert_sorted (x : IndexingQueue.Listed) (l : list IndexingQueue.Listed) :
  StronglySorted (fun a b => IndexingQueue.ahead a b = true) l ->
  StronglySorted (fun a b => IndexingQueue.ahead a b = true) (IndexingQueue.insert x l).
Proof.
  induction 1 as [| y l Hl IH Hy]; cbn [IndexingQueue.insert].
  - repeat constructor.
  - destruct (IndexingQueue.ahead x y) eqn:Hxy.
    + constructor; [constructor; assumption |].
      constructor; [exact Hxy |].
      eapply Forall_impl; [exact Hy |]. intros z Hz. cbn. eapply ahead_trans; eassumption.
    + constructor; [exact IH |].
      rewrite insert_Permutation. constructor; [apply ahead_total; exact Hxy | exact Hy].
Qed.

Lemma sort_sorted (l : list IndexingQueue.Listed) :
  StronglySorted (fun a b => IndexingQueue.ahead a b = true) (IndexingQueue.sort l).
Proof.
  unfold IndexingQueue.sort. induction l as [| x l IH]; cbn [fold_right]; [constructor |].
  apply insert_sorted. exact IH.
Qed.

Lemma StronglySorted_lookup {A : Type} (R : A -> A -> Prop) (l : list A) :
  StronglySorted R l ->
  forall (i j : nat) (a b : A), (i < j)%nat -> l !! i = Some a -> l !! j = Some b -> R a b.
Proof.
  induction 1 as [| x l Hl IH Hx]; intros i j a b Hij Ha Hb; [discriminate |].
  destruct j as [| j]; [lia |]. cbn in Hb.
  destruct i as [| i]; cbn in Ha.
  - injection Ha as <-. rewrite Forall_forall in Hx. apply Hx.
    eapply list_elem_of_lookup_2. exact Hb.
  - eapply IH; [| exact Ha | exact Hb]. lia.
Qed.

(** A row of the listing is the row of a repository of the catalog, with
    the entry the queue has for it. *)
Lemma listing_lookup (now : Z) (repos : list IndexingQueue.Repository)
    (q : IndexingQueue.Queue) (i : nat) (r : IndexingQueue.Row.t) :
  IndexingQueue.listing now repos q !! i = Some r ->
  exists repo,
    repo ∈ repos
    /\ IndexingQueue.sort (map (fun r => (r, IndexingQueue.lookup q (IndexingQueue.ID r))) repos)
       !! i = Some (repo, IndexingQueue.lookup q (IndexingQueue.ID repo))
    /\ r = IndexingQueue.row now i (repo, IndexingQueue.lookup q (IndexingQueue.ID repo)).
Proof.
  unfold IndexingQueue.listing. rewrite list_lookup_imap.
  destruct (IndexingQueue.sort _ !! i) as [x |] eqn:Hx; [| discriminate].
  intros [= <-].
  pose proof (list_elem_of_lookup_2 _ _ _ Hx) as Hin.
  rewrite sort_Permutation in Hin.
  apply list_elem_of_fmap in Hin as (repo & -> & Hrepo).
  exists repo. split; [exact Hrepo |]. split; reflexivity.
Qed.

(** And every repository of the catalog has its row. *)
Lemma listing_row (now : Z) (repos : list IndexingQueue.Repository)
    (q : IndexingQueue.Queue) (repo : IndexingQueue.Repository) :
  repo ∈ repos ->
  exists i,
    IndexingQueue.listing now repos q !! i
    = Some (IndexingQueue.row now i (repo, IndexingQueue.lookup q (IndexingQueue.ID repo))).
Proof.
  intros Hrepo.
  assert (Hin : (repo, IndexingQueue.lookup q (IndexingQueue.ID repo))
                ∈ IndexingQueue.sort
                    (map (fun r => (r, IndexingQueue.lookup q (IndexingQueue.ID r))) repos)).
  { rewrite sort_Permutation. apply list_elem_of_fmap. exists repo. split; [reflexivity | exact Hrepo]. }
  apply list_elem_of_lookup_1 in Hin as [i Hi]. exists i.
  unfold IndexingQueue.listing. rewrite list_lookup_imap.
  apply (f_equal (fmap (IndexingQueue.row now i))) in Hi. exact Hi.
Qed.

Lemma listing_IDs (now : Z) (repos : list IndexingQueue.Repository) (q : IndexingQueue.Queue) :
  map IndexingQueue.Row.ID (IndexingQueue.listing now repos q) ≡ₚ map IndexingQueue.ID repos.
Proof.
  unfold IndexingQueue.listing.
  assert (H : forall (l : list IndexingQueue.Listed) (n : nat),
             map IndexingQueue.Row.ID (imap (fun i => IndexingQueue.row now (n + i)) l)
             = map (fun x => IndexingQueue.ID (fst x)) l).
  { induction l as [| x l IH]; intros n; [reflexivity |].
    cbn [imap map]. f_equal.
    rewrite <- (IH (S n)). f_equal. apply imap_ext. intros i y _. cbn.
    f_equal. lia. }
  rewrite (H _ O), sort_Permutation, map_map. reflexivity.
Qed.

(** ** The debug commands *)
Section DebugFacts.

Context {rootConfig Server URL : Type}.
Context (rootFlags : list flag.Flag).
Context (rootConfigDefault : rootConfig).
Context (IndexDir : Server -> string).
Context (getEnvWithDefaultInt64 : string -> Z -> Z).
Context (getEnvWithDefaultString : string -> string -> string).
Context (srcLogLevelIsDebug : bool).
Context (DefaultDir : string).
Context (parseRest : string -> result URL).
Context (setFragment : URL -> string -> result URL).
Context (URL_String : URL -> string).

(** The handlers and the commands of this process. *)
Local Abbreviation handler :=
  (handler (rootConfig := rootConfig) (Server := Server) (URL := URL)).
Local Abbreviation registerRootFlags :=
  (registerRootFlags (rootConfig := rootConfig) rootFlags rootConfigDefault).
Local Abbreviation debugIndex :=
  (debugIndex (Server := Server) (URL := URL) rootFlags rootConfigDefault).
Local Abbreviation debugTrigrams :=
  (debugTrigrams (rootConfig := rootConfig) (Server := Server) (URL := URL)).
Local Abbreviation debugMeta :=
  (debugMeta (rootConfig := rootConfig) (Server := Server) (URL := URL)).
Local Abbreviation debugMerge :=
  (debugMerge (rootConfig := rootConfig) (Server := Server) (URL := URL)
     getEnvWithDefaultInt64 getEnvWithDefaultString srcLogLevelIsDebug DefaultDir).
Local Abbreviation debugQueueExec :=
  (debugQueueExec (rootConfig := rootConfig) (Server := Server)
     parseRest setFragment URL_String).
Local Abbreviation debugQueue :=
  (debugQueue (rootConfig := rootConfig) (Server := Server)
     parseRest setFragment URL_String).
Local Abbreviation debugCmd :=
  (debugCmd rootFlags rootConfigDefault IndexDir getEnvWithDefaultInt64
     getEnvWithDefaultString srcLogLevelIsDebug DefaultDir parseRest setFragment URL_String).

(** *** debug index *)

(** The four ways a run of [debug index <arg0>] can go. *)
Lemma debugIndexExec_run {W : Type} (h : handler W) (w : W) (conf : rootConfig)
    (arg0 : string) (rest : list string) :
  let o := run h (debugIndexExec conf (arg0 :: rest)) w in
  match h (newServer conf) w with
  | (Err e, w1) => o = (Some e, w1, [Event (newServer conf) (Err e)])
  | (Ok s, w1) =>
      match strconv.Atoi arg0 with
      | (_, Some e) => o = (Some e, w1, [Event (newServer conf) (Ok s)])
      | (id, None) =>
          let '(r, w2) := h (forceIndex s (uint32 id)) w1 in
          let '(u, w3) := h (log_Println (fst r)) w2 in
          o = (snd r, w3,
               [Event (newServer conf) (Ok s);
                Event (forceIndex s (uint32 id)) r;
                Event (log_Println (fst r)) u])
      end
  end.
Proof.
  cbn [debugIndexExec run].
  destruct (h (newServer conf) w) as [[s | e] w1]; [| reflexivity].
  destruct (strconv.Atoi arg0) as [id [e |]]; [reflexivity |].
  cbn [run].
  destruct (h (forceIndex s (uint32 id)) w1) as [[msg err] w2].
  cbn [run fst snd].
  destruct (h (log_Println msg) w2) as [u w3].
  destruct err; reflexivity.
Qed.


(** C4: with an empty argument list, [debug index], [debug trigrams] and
    [debug meta] return their error ("missing repository ID", "missing path
    to shard") at once: whatever answers the calls and whatever the world,
    the run makes no call at all (no server is constructed, no indexing is
    forced, no shard file is read) and leaves the world as it found it.
    These are the handlers the commands carry in their [Exec] field. *)
Theorem debug_missing_argument (W : Type) (h : handler W) (w : W) (conf : rootConfig) :
  (Exec debugIndex = Some debugIndexExec
   /\ run h (debugIndexExec conf []) w = (Some (Errorf "missing repository ID" []), w, []))
  /\ (Exec debugTrigrams = Some debugTrigramsExec
      /\ run h (debugTrigramsExec tt []) w = (Some (Errorf "missing path to shard" []), w, []))
  /\ (Exec debugMeta = Some debugMetaExec
      /\ run h (debugMetaExec tt []) w = (Some (Errorf "missing path to shard" []), w, [])).
Proof. repeat split. Qed.


(** C9 (amended): when the argument parses as a negative integer [n] and the
    server is constructed, [debug index] does not refuse the argument:
    [forceIndex] is called, once, with the repository ID [n mod 2^32] (which
    is [n + 2^32] for [n] from [-2^32] on), its message is logged and its
    error is what the command returns. *)
Theorem debugIndex_negative_id_wraps (W : Type) (h : handler W) (w : W) (conf : rootConfig)
    (arg0 : string) (rest : list string) (n : Z) (s : Server) :
  strconv.Atoi arg0 = (n, nil) ->
  n < 0 ->
  fst (h (newServer conf) w) = Ok s ->
  let o := run h (debugIndexExec conf (arg0 :: rest)) w in
  forceIndexCalls (calls o) = [(s, n mod 2^32)]
  /\ 0 <= n mod 2^32 < 2^32
  /\ (- 2^32 <= n -> n mod 2^32 = n + 2^32)
  /\ exists msg err,
       calls o = [Event (newServer conf) (Ok s);
                  Event (forceIndex s (n mod 2^32)) (msg, err);
                  Event (log_Println msg) tt]
       /\ returned o = err.
Proof.
  intros Hatoi Hneg Hs o. subst o.
  pose proof (debugIndexExec_run h w conf arg0 rest) as Hrun. cbv zeta in Hrun.
  destruct (h (newServer conf) w) as [[s' | e] w1]; cbn in Hs; [| discriminate].
  injection Hs as ->. rewrite Hatoi in Hrun. unfold nil in Hrun.
  unfold uint32 in Hrun.
  destruct (h (forceIndex s (n mod 2^32)) w1) as [[msg err] w2].
  destruct (h (log_Println (fst (msg, err))) w2) as [[] w3].
  rewrite Hrun. cbn [fst snd].
  split; [reflexivity |].
  split; [apply Z.mod_pos_bound; lia |].
  split.
  - intros Hlo. symmetry. apply (Z.mod_unique n (2^32) (-1)); lia.
  - exists msg, err. split; reflexivity.
Qed.

(** C10: in every run of [debug index], either [forceIndex] is not called,
    or the run ends with the call of [forceIndex] followed at once by
    [log.Println] of the message it returned, and the command returns the
    error [forceIndex] returned, non-nil or not. *)
Theorem debugIndex_logs_message_first (W : Type) (h : handler W) (w : W)
    (conf : rootConfig) (args : list string) :
  let o := run h (debugIndexExec conf args) w in
  forceIndexCalls (calls o) = []
  \/ exists s id msg err pre,
       calls o = (pre ++ [Event (forceIndex s id) (msg, err); Event (log_Println msg) tt])%list
       /\ forceIndexCalls pre = []
       /\ returned o = err.
Proof.
  intros o. subst o. destruct args as [| arg0 rest]; [left; reflexivity |].
  pose proof (debugIndexExec_run h w conf arg0 rest) as Hrun. cbv zeta in Hrun.
  destruct (h (newServer conf) w) as [[s | e] w1]; [| rewrite Hrun; left; reflexivity].
  destruct (strconv.Atoi arg0) as [id [e |]]; [rewrite Hrun; left; reflexivity |].
  destruct (h (forceIndex s (uint32 id)) w1) as [[msg err] w2].
  destruct (h (log_Println (fst (msg, err))) w2) as [[] w3].
  rewrite Hrun. right.
  exists s, (uint32 id), msg, err, [Event (newServer conf) (Ok s)].
  repeat split.
Qed.

(** *** debug merge *)

(** Every run of [debug merge] ends with its one call of [doMerge]; the
    positional arguments take no part in it. *)
Lemma debugMergeExec_run {W : Type} (h : handler W) (w : W) (v : mergeVars)
    (args : list string) :
  let m := doMerge (index v) (mulInt64 (mulInt64 (targetSize v) 1024) 1024) (simulate v) in
  let w1 := if dbg v then snd (h setDebug w) else w in
  run h (debugMergeExec v args) w
  = (fst (h m w1), snd (h m w1),
     ((if dbg v then [Event setDebug tt] else []) ++ [Event m (fst (h m w1))])%list).
Proof.
  unfold debugMergeExec. destruct (dbg v); cbn [bind call run].
  - destruct (h setDebug w) as [[] w1]. cbn [snd].
    destruct (h _ w1) as [e w2]. reflexivity.
  - destruct (h _ w) as [e w2]. reflexivity.
Qed.

Lemma debugMerge_doMergeCalls {W : Type} (h : handler W) (w : W) (v : mergeVars)
    (args : list string) :
  doMergeCalls (calls (run h (debugMergeExec v args) w))
  = [(index v, mulInt64 (mulInt64 (targetSize v) 1024) 1024, simulate v)].
Proof.
  pose proof (debugMergeExec_run h w v args) as Hrun. cbv zeta in Hrun.
  rewrite Hrun. unfold calls. cbn [snd]. destruct (dbg v); reflexivity.
Qed.

(** The directory [doMerge] runs in is the content of the [-index] flag,
    whatever the positional arguments. *)
Lemma debugMerge_dir_is_index_flag {W : Type} (h : handler W) (w : W) (v : mergeVars)
    (args : list string) :
  map (fun c => fst (fst c)) (doMergeCalls (calls (run h (debugMergeExec v args) w)))
  = [index v].
Proof. rewrite debugMerge_doMergeCalls. reflexivity. Qed.

(** C3 (amended): for a [merge_target_size] of [t] MiB with
    [-2^43 <= t < 2^43], the target size handed to [doMerge] is [t] times
    [1024*1024] bytes; the flag's default is 2000 or what SRC_TARGET_SIZE
    gives. *)
Theorem debugMerge_target_size_bytes (W : Type) (h : handler W) (w : W) (v : mergeVars)
    (args : list string) :
  - 2^43 <= targetSize v < 2^43 ->
  map (fun c => snd (fst c)) (doMergeCalls (calls (run h (debugMergeExec v args) w)))
  = [targetSize v * (1024 * 1024)]
  /\ targetSize (cells debugMerge) = getEnvWithDefaultInt64 "SRC_TARGET_SIZE" 2000.
Proof.
  intros Hrange. split; [| reflexivity].
  rewrite debugMerge_doMergeCalls. cbn [map fst snd].
  rewrite targetSizeBytes_wraps, wrapInt64_small by lia. reflexivity.
Qed.

(** *** A merge invocation against the engine of the specification *)
Section MergeFacts.

Context (reposOf : string -> list Z).
Context (generationOf : string -> nat).
Context (mergeShards : list string -> string).
Context (compoundPath : list ShardMergeEngine.ShardMeta -> string).
Context (tmpPath : string -> string).
Context (writeFails : string -> string -> bool).

Local Abbreviation engine :=
  (engine reposOf generationOf mergeShards compoundPath tmpPath writeFails).
Local Abbreviation withEngine :=
  (withEngine (rootConfig := rootConfig) (Server := Server) (URL := URL)
     reposOf generationOf mergeShards compoundPath tmpPath writeFails).
Local Abbreviation executeBin := (ShardMergeEngine.executeBin mergeShards tmpPath writeFails).
Local Abbreviation executeBins := (ShardMergeEngine.executeBins mergeShards tmpPath writeFails).
Local Abbreviation Plan := (ShardMergeEngine.Plan compoundPath).
Local Abbreviation scan := (ShardMergeEngine.scan reposOf generationOf).

(** Simulated, a bin leaves the directory alone and is reported as merged. *)
Lemma executeBin_simulate (d : gmap string string) (b : ShardMergeEngine.Bin) :
  executeBin true d b = (d, option_map ShardMergeEngine.merged (ShardMergeEngine.mergeOf b)).
Proof.
  unfold ShardMergeEngine.executeBin, ShardMergeEngine.mergeOf.
  destruct (ShardMergeEngine.InputShards b) as [| s1 [| s2 rest]]; reflexivity.
Qed.

(** Simulated or not, what is reported of a bin is its merge. *)
Lemma executeBin_mergeIn (sim : bool) (d : gmap string string) (b : ShardMergeEngine.Bin) :
  option_map ShardMergeEngine.mergeIn (snd (executeBin sim d b)) = ShardMergeEngine.mergeOf b.
Proof.
  unfold ShardMergeEngine.executeBin, ShardMergeEngine.mergeOf.
  destruct (ShardMergeEngine.InputShards b) as [| s1 [| s2 rest]]; [reflexivity .. |].
  destruct sim; [reflexivity |].
  destruct (writeFails _ _); reflexivity.
Qed.

Lemma executeBins_simulate (bins : list ShardMergeEngine.Bin) (d : gmap string string) :
  executeBins true bins d = (d, map ShardMergeEngine.merged (omap ShardMergeEngine.mergeOf bins)).
Proof.
  induction bins as [| b bins IH]; [reflexivity |].
  cbn [ShardMergeEngine.executeBins]. rewrite executeBin_simulate, IH.
  cbn. destruct (ShardMergeEngine.mergeOf b); reflexivity.
Qed.

Lemma executeBins_mergeIn (sim : bool) (bins : list ShardMergeEngine.Bin) :
  forall d, map ShardMergeEngine.mergeIn (snd (executeBins sim bins d)) = omap ShardMergeEngine.mergeOf bins.
Proof.
  induction bins as [| b bins IH]; intros d; [reflexivity |].
  cbn [ShardMergeEngine.executeBins]. change (omap ShardMergeEngine.mergeOf (b :: bins))
    with (match ShardMergeEngine.mergeOf b with
          | Some x => x :: omap ShardMergeEngine.mergeOf bins
          | None => omap ShardMergeEngine.mergeOf bins
          end).
  pose proof (executeBin_mergeIn sim d b) as Hb.
  destruct (executeBin sim d b) as [d1 r]. cbn [snd] in Hb.
  specialize (IH d1). destruct (executeBins sim bins d1) as [d2 report].
  cbn [snd] in *. rewrite map_app, IH, <- Hb.
  destruct r; reflexivity.
Qed.

(** A report without a failure lists its merges as merged. *)
Lemma firstFailure_nil (report : ShardMergeEngine.Report) :
  ShardMergeEngine.firstFailure report = nil -> report = map ShardMergeEngine.merged (map ShardMergeEngine.mergeIn report).
Proof.
  unfold ShardMergeEngine.firstFailure.
  induction report as [| [t ins [e |]] report IH]; cbn; [reflexivity | discriminate |].
  intros H. rewrite <- IH by exact H. reflexivity.
Qed.

(** With a disk that takes every write, no bin fails. *)
Lemma executeBins_no_failure (sim : bool) (bins : list ShardMergeEngine.Bin) :
  (forall path bytes, writeFails path bytes = false) ->
  forall d, ShardMergeEngine.firstFailure (snd (executeBins sim bins d)) = nil.
Proof.
  intros Hdisk. unfold ShardMergeEngine.firstFailure.
  induction bins as [| b bins IH]; intros d; [reflexivity |].
  cbn [ShardMergeEngine.executeBins].
  assert (Hb : forall r, snd (executeBin sim d b) = Some r -> ShardMergeEngine.Failure r = nil).
  { unfold ShardMergeEngine.executeBin.
    destruct (ShardMergeEngine.InputShards b) as [| s1 [| s2 rest]]; [discriminate .. |].
    destruct sim; [intros r [= <-]; reflexivity |].
    rewrite Hdisk. intros r [= <-]. reflexivity. }
  destruct (executeBin sim d b) as [d1 r]. cbn [snd] in Hb.
  specialize (IH d1). destruct (executeBins sim bins d1) as [d2 report]. cbn [snd] in *.
  destruct r as [r |]; [| exact IH].
  pose proof (Hb r eq_refl) as Hr. simpl. rewrite Hr. exact IH.
Qed.

(** *** The plan is a plan of the directory *)

Lemma firstFit_partition (t : Z) (x : ShardMergeEngine.ShardMeta)
    (bins : list (list ShardMergeEngine.ShardMeta)) :
  concat (ShardMergeEngine.firstFit t x bins) ≡ₚ x :: concat bins.
Proof.
  induction bins as [| b bins IH]; cbn [ShardMergeEngine.firstFit concat]; [reflexivity |].
  destruct (ShardMergeEngine.fits t x b); cbn [concat].
  - rewrite <- app_assoc. cbn [app]. symmetry. apply Permutation_middle.
  - rewrite IH. symmetry. apply Permutation_middle.
Qed.

Lemma place_partition (t : Z) (bins : list (list ShardMergeEngine.ShardMeta))
    (x : ShardMergeEngine.ShardMeta) :
  concat (ShardMergeEngine.place t bins x) ≡ₚ x :: concat bins.
Proof.
  unfold ShardMergeEngine.place. destruct (t <=? ShardMergeEngine.Size x).
  - rewrite concat_app. cbn [concat]. rewrite app_nil_r.
    symmetry. apply Permutation_cons_append.
  - apply firstFit_partition.
Qed.

(** Every shard is in exactly one bin. *)
Lemma Plan_partition (t : Z) (shards : list ShardMergeEngine.ShardMeta) :
  forall bins,
    concat (fold_left (ShardMergeEngine.place t) shards bins) ≡ₚ (concat bins ++ shards)%list.
Proof.
  induction shards as [| x shards IH]; intros bins; cbn [fold_left].
  - rewrite app_nil_r. reflexivity.
  - rewrite IH, place_partition. cbn [app]. apply Permutation_middle.
Qed.

(** The bins of a plan hold the shards it was made of, each once. *)
Lemma Plan_shards (shards : list ShardMergeEngine.ShardMeta) (t : Z) (sim : bool) :
  concat (map ShardMergeEngine.InputShards (ShardMergeEngine.Bins (Plan shards t sim)))
  ≡ₚ shards.
Proof.
  unfold ShardMergeEngine.Plan. cbn [ShardMergeEngine.Bins].
  rewrite map_map. cbn [ShardMergeEngine.InputShards]. rewrite map_id.
  apply (Plan_partition t shards []).
Qed.

(** The shards the merges of a plan take are shards of its bins, each as
    often as it is there. *)
Lemma merges_inputs (bins : list (list ShardMergeEngine.ShardMeta)) :
  concat (map snd (omap ShardMergeEngine.mergeOf
                     (map (fun b => ShardMergeEngine.mkBin b (compoundPath b)) bins)))
  ⊆+ map ShardMergeEngine.Path (concat bins).
Proof.
  induction bins as [| b bins IH]; [reflexivity |].
  cbn [map concat]. rewrite map_app.
  change (omap ShardMergeEngine.mergeOf
            (ShardMergeEngine.mkBin b (compoundPath b)
             :: map (fun b => ShardMergeEngine.mkBin b (compoundPath b)) bins))
    with (match ShardMergeEngine.mergeOf (ShardMergeEngine.mkBin b (compoundPath b)) with
          | Some x =>
              x :: omap ShardMergeEngine.mergeOf
                     (map (fun b => ShardMergeEngine.mkBin b (compoundPath b)) bins)
          | None =>
              omap ShardMergeEngine.mergeOf
                (map (fun b => ShardMergeEngine.mkBin b (compoundPath b)) bins)
          end).
  unfold ShardMergeEngine.mergeOf at 1. cbn [ShardMergeEngine.InputShards ShardMergeEngine.TargetPath].
  destruct b as [| s1 [| s2 rest]].
  - exact IH.
  - cbn [map app]. apply submseteq_cons. exact IH.
  - cbn [map concat snd]. apply submseteq_app; [reflexivity | exact IH].
Qed.

(** The shards the merges of the plan of a directory take are files of the
    directory, none taken twice. *)
Lemma Plan_merges_files (d : gmap string string) (t : Z) (sim : bool) :
  let inputs := concat (map snd (ShardMergeEngine.merges (Plan (scan d) t sim))) in
  NoDup inputs /\ forall path, path ∈ inputs -> is_Some (d !! path).
Proof.
  cbv zeta. unfold ShardMergeEngine.merges, ShardMergeEngine.Plan. cbn [ShardMergeEngine.Bins].
  pose proof (merges_inputs (fold_left (ShardMergeEngine.place t) (scan d) [])) as Hsub.
  rewrite (Plan_partition t (scan d) []) in Hsub. cbn [concat app] in Hsub.
  assert (Hfiles : map ShardMergeEngine.Path (scan d) = (map_to_list d).*1).
  { unfold ShardMergeEngine.scan. rewrite map_map. apply map_ext. intros [p c]. reflexivity. }
  rewrite Hfiles in Hsub.
  split.
  - destruct (submseteq_Permutation _ _ Hsub) as [k Hk].
    pose proof (NoDup_fst_map_to_list d) as Hnd. rewrite Hk in Hnd.
    apply NoDup_app in Hnd as [Hnd _]. exact Hnd.
  - intros path Hin. eapply elem_of_submseteq in Hin; [| exact Hsub].
    apply list_elem_of_fmap in Hin as ([p c] & -> & Hin).
    apply elem_of_map_to_list in Hin. cbn. rewrite Hin. eexists. reflexivity.
Qed.

(** What a merge invocation of the engine comes to, simulated. *)
Lemma engine_simulate (dir : string) (t : Z) (fs : gmap string (gmap string string)) :
  engine dir t true fs
  = match fs !! dir with
    | None => (Some (New "missing directory"), fs, [])
    | Some d => (nil, fs, map ShardMergeEngine.merged (ShardMergeEngine.merges (Plan (scan d) t true)))
    end.
Proof.
  unfold engine, ShardMergeEngine.doMerge.
  destruct (fs !! dir) as [d |] eqn:Hdir; [| reflexivity].
  unfold ShardMergeEngine.Execute, ShardMergeEngine.merges.
  cbn [ShardMergeEngine.Simulate ShardMergeEngine.Bins ShardMergeEngine.Plan].
  rewrite executeBins_simulate, insert_id by exact Hdir.
  f_equal. f_equal. clear.
  unfold ShardMergeEngine.firstFailure.
  induction (omap ShardMergeEngine.mergeOf _) as [| x l IH]; [reflexivity | exact IH].
Qed.

(** And not simulated: the merges of the same plan, each merged or failed. *)
Lemma engine_real (dir : string) (t : Z) (fs : gmap string (gmap string string))
    (d : gmap string string) :
  fs !! dir = Some d ->
  let r := engine dir t false fs in
  map ShardMergeEngine.mergeIn (snd r) = ShardMergeEngine.merges (Plan (scan d) t true)
  /\ fst (fst r) = ShardMergeEngine.firstFailure (snd r)
  /\ ((forall path bytes, writeFails path bytes = false) -> fst (fst r) = nil).
Proof.
  intros Hdir. cbv zeta. unfold engine, ShardMergeEngine.doMerge. rewrite Hdir.
  unfold ShardMergeEngine.Execute, ShardMergeEngine.merges.
  cbn [ShardMergeEngine.Simulate ShardMergeEngine.Bins ShardMergeEngine.Plan].
  pose proof (executeBins_mergeIn false
                (map (fun b => ShardMergeEngine.mkBin b (compoundPath b))
                   (fold_left (ShardMergeEngine.place t) (scan d) [])) d) as Hm.
  pose proof (fun Hdisk => executeBins_no_failure false
                (map (fun b => ShardMergeEngine.mkBin b (compoundPath b))
                   (fold_left (ShardMergeEngine.place t) (scan d) [])) Hdisk d) as Hno.
  destruct (executeBins false _ d) as [d' report]. cbn [fst snd] in *.
  split; [exact Hm |]. split; [reflexivity | exact Hno].
Qed.

Lemma withEngine_run {W : Type} (h : handler W) (w : W) (m : MergeWorld) (v : mergeVars)
    (args : list string) :
  let size := mulInt64 (mulInt64 (targetSize v) 1024) 1024 in
  let r := engine (index v) size (simulate v) (store m) in
  run (withEngine h) (debugMergeExec v args) (w, m)
  = (fst (fst r),
     (if dbg v then snd (h setDebug w) else w,
      mkMergeWorld (snd (fst r)) (reported m ++ [snd r])),
     ((if dbg v then [Event setDebug tt] else [])
      ++ [Event (doMerge (index v) size (simulate v)) (fst (fst r))])%list).
Proof.
  cbv zeta.
  pose proof (debugMergeExec_run (withEngine h) (w, m) v args) as Hrun.
  cbv zeta in Hrun. rewrite Hrun. clear Hrun.
  destruct (dbg v).
  - cbn [withEngine fst snd]. destruct (h setDebug w) as [[] w1].
    cbn [fst snd store reported].
    destruct (engine _ _ _ _) as [[err fs] report]. reflexivity.
  - cbn [withEngine fst snd].
    destruct (engine _ _ _ _) as [[err fs] report]. reflexivity.
Qed.

(** C2: [debug merge] hands the content of the [-simulate] flag, false by
    default, to [doMerge] unchanged.  With the flag set, the engine of the
    specification leaves the shard store (every directory's file set and
    every file's bytes) as it was, whatever the disk would do to a write, and
    reports the plan: the merges of the plan of the directory's scan for the
    target size, each as merged, with no error; every shard of the directory
    is in one bin of that plan, and the shards its merges take are files of
    the directory, none taken twice.  Without the flag the same
    invocation reports the merges of that same plan, each merged or failed,
    and when it returns no error (as it does on a disk that takes every
    write) its report is the simulated one.  A missing directory is refused
    with nothing reported, simulated or not. *)
Theorem debugMerge_simulate (W : Type) (h : handler W) (w : W) (m : MergeWorld)
    (v : mergeVars) (args : list string) :
  let size := mulInt64 (mulInt64 (targetSize v) 1024) 1024 in
  let invoke (sim : bool) :=
    run (withEngine h)
      (debugMergeExec (mkMergeVars sim (targetSize v) (index v) (dbg v)) args) (w, m) in
  let report o := drop (length (reported m)) (reported (snd (world o))) in
  simulate (cells debugMerge) = false
  /\ map snd (doMergeCalls (calls (run (withEngine h) (debugMergeExec v args) (w, m))))
     = [simulate v]
  /\ store (snd (world (invoke true))) = store m
  /\ match store m !! index v with
     | None =>
         report (invoke true) = [[]]
         /\ returned (invoke true) = Some (New "missing directory")
     | Some d =>
         let plan := Plan (scan d) size true in
         report (invoke true) = [map ShardMergeEngine.merged (ShardMergeEngine.merges plan)]
         /\ returned (invoke true) = nil
         /\ concat (map ShardMergeEngine.InputShards (ShardMergeEngine.Bins plan)) ≡ₚ scan d
         /\ (let inputs := concat (map snd (ShardMergeEngine.merges plan)) in
             NoDup inputs /\ forall path, path ∈ inputs -> is_Some (d !! path))
         /\ (exists real,
               report (invoke false) = [real]
               /\ map ShardMergeEngine.mergeIn real = ShardMergeEngine.merges plan
               /\ (returned (invoke false) = nil ->
                   real = map ShardMergeEngine.merged (ShardMergeEngine.merges plan))
               /\ ((forall path bytes, writeFails path bytes = false) ->
                   returned (invoke false) = nil))
     end.
Proof.
  intros size invoke report. subst size invoke report.
  split; [reflexivity |].
  split; [rewrite debugMerge_doMergeCalls; reflexivity |].
  rewrite !withEngine_run. unfold world, returned.
  cbn [simulate targetSize index dbg fst snd store reported].
  rewrite !drop_app_length, engine_simulate.
  destruct (store m !! index v) as [d |] eqn:Hdir; cbn [fst snd].
  - split; [reflexivity |]. split; [reflexivity |]. split; [reflexivity |].
    split; [apply Plan_shards |]. split; [apply Plan_merges_files |].
    destruct (engine_real (index v) (mulInt64 (mulInt64 (targetSize v) 1024) 1024)
                (store m) d Hdir) as (Hmerges & Herr & Hno).
    eexists. split; [reflexivity |]. split; [exact Hmerges |].
    split; [| exact Hno].
    rewrite Herr. intros Hnil. rewrite <- Hmerges. apply firstFailure_nil. exact Hnil.
  - split; [reflexivity |]. split; reflexivity.
Qed.

End MergeFacts.

(** *** debug queue *)

(** What [http.NewRequestWithContext] returns when it returns a request. *)
Lemma NewRequestWithContext_Ok (urlStr : string) (r : http.Request URL) :
  http.NewRequestWithContext parseRest setFragment http.MethodGet urlStr = Ok r ->
  http.Method r = "GET"
  /\ url.Parse parseRest setFragment urlStr = Ok (http.reqURL r)
  /\ http.Header r = ∅.
Proof.
  unfold http.NewRequestWithContext, http.MethodGet.
  change (negb (http.validMethod "GET")) with false. cbv iota.
  destruct (url.Parse parseRest setFragment urlStr) as [u | e]; [| discriminate].
  intros [= <-]. repeat split.
Qed.

(** C8 (amended): [debug queue] is read-only introspection.  Its calls are
    at most one request through the HTTP client, then the copy of the
    response body to stdout and the closing of the body.  The request is made
    exactly when the URL [http://<hostname>:<port>/debug/queue] parses and
    the request can be constructed; it is a GET (with an [Accept: text/plain]
    header) for that URL; when the client returns a response, the body handed
    to the copy is the response's body. *)
Theorem debugQueue_read_only (W : Type) (h : handler W) (w : W) (v : queueVars)
    (args : list string) :
  let o := run h (debugQueueExec v args) w in
  Forall queueCall (calls o)
  /\ match url.Parse parseRest setFragment (queueURL v) with
     | Err err =>
         calls o = []
         /\ returned o
            = Some (Errorf "parsing URL %q: %s" [opString (queueURL v); opError err])
     | Ok address =>
         match
           http.NewRequestWithContext parseRest setFragment http.MethodGet (URL_String address)
         with
         | Err err =>
             calls o = []
             /\ returned o = Some (Errorf "constructing request: %w" [opError err])
         | Ok request =>
             let request := http.Header_Set request "Accept" "text/plain" in
             requests (calls o) = [request]
             /\ http.Method request = "GET"
             /\ url.Parse parseRest setFragment (URL_String address)
                = Ok (http.reqURL request)
             /\ http.Header request = {[ "Accept" := ["text/plain"] ]}
             /\ match fst (h (DefaultClient_Do request) w) with
                | Err err =>
                    calls o = [Event (DefaultClient_Do request) (Err err)]
                    /\ returned o = Some err
                | Ok response =>
                    exists (copied : Z * error) (closed : error),
                      calls o = [Event (DefaultClient_Do request) (Ok response);
                                 Event (io_Copy_Stdout (http.Body response)) copied;
                                 Event (Body_Close response) closed]
                      /\ returned o
                         = match snd copied with
                           | Some e => Some (Errorf "writing to stdout: %w" [opError e])
                           | None => nil
                           end
                end
         end
     end.
Proof.
  intros o. subst o. unfold debugQueueExec.
  destruct (url.Parse parseRest setFragment (queueURL v)) as [address | err];
    [| split; [constructor | split; reflexivity]].
  destruct (http.NewRequestWithContext parseRest setFragment http.MethodGet
              (URL_String address)) as [request | err] eqn:Hreq;
    [| split; [constructor | split; reflexivity]].
  apply NewRequestWithContext_Ok in Hreq as (Hmethod & Hurl & Hheader).
  cbv zeta. cbn [run].
  set (req := http.Header_Set request "Accept" "text/plain").
  destruct (h (DefaultClient_Do req) w) as [[response | err] w1]; cbn [run fst].
  - destruct (h (io_Copy_Stdout (http.Body response)) w1) as [[n err] w2]. cbn [run].
    destruct (h (Body_Close response) w2) as [closed w3].
    destruct err as [e |]; cbn [run calls returned fst snd].
    + split; [repeat constructor |]. split; [reflexivity |].
      split; [exact Hmethod |]. split; [exact Hurl |].
      split; [subst req; cbn [http.Header_Set http.Header]; rewrite Hheader; reflexivity |].
      exists (n, Some e), closed. split; reflexivity.
    + split; [repeat constructor |]. split; [reflexivity |].
      split; [exact Hmethod |]. split; [exact Hurl |].
      split; [subst req; cbn [http.Header_Set http.Header]; rewrite Hheader; reflexivity |].
      exists (n, None), closed. split; reflexivity.
  - split; [repeat constructor |]. split; [reflexivity |].
    split; [exact Hmethod |]. split; [exact Hurl |].
    split; [subst req; cbn [http.Header_Set http.Header]; rewrite Hheader; reflexivity |].
    split; reflexivity.
Qed.

(** The help text [debug queue] carries describes the listing column by
    column, in this order: Position (zero-indexed, sorted by priority), Name,
    ID, IsOnQueue (whether there is an outstanding job), Age (time in the
    queue since the job was first added, metadata updates ignored, "-" when
    there is no outstanding job) and Branches (comma-separated
    $BRANCH_NAME@$COMMIT_HASH: the desired set when there is a job on the
    queue, otherwise what the most recent job indexed). *)
Lemma debugQueue_column_headers :
  hd EmptyString (splitLines (LongHelp debugQueue)) = "COLUMN HEADERS"
  /\ columnHeaders (LongHelp debugQueue)
     = [ ("Position",
          "zero-indexed position of this repository in the indexing queue (sorted by priority).");
         ("Name", "name for this repository");
         ("ID", "ID for this repository");
         ("IsOnQueue",
          dq +:+ "true" +:+ dq +:+ " if this repository has an outstanding indexing job that's enqueued for future work. "
          +:+ dq +:+ "false" +:+ dq +:+ " otherwise.");
         ("Age",
          "amount of time that this repository has spent in the indexing queue since its outstanding indexing job was first added (ignoring any job metadata updates that may have occurred while it was still enqueued). A "
          +:+ dq +:+ "-" +:+ dq +:+ " is printed instead if this repository doesn't have an outstanding job.");
         ("Branches",
          "comma-separated list of branches in $BRANCH_NAME@$COMMIT_HASH format. If the repository has a job on the indexing queue, this list represents the desired set of branches + associated commits that will be process during the next indexing job. However, if the repository  doesn't have a job on the queue, this list represents the set of branches + associated commits that was indexed during its most recent indexing job.") ].
Proof. split; vm_compute; reflexivity. Qed.

(** *** debug *)

Lemma registerRootFlags_name (fs : flag.FlagSet) :
  flag.name (snd (registerRootFlags fs)) = flag.name fs.
Proof.
  unfold registerRootFlags. cbn [snd]. revert fs.
  induction rootFlags as [| x xs IH]; intros fs; cbn [fold_left]; [reflexivity |].
  rewrite IH. reflexivity.
Qed.

(** C7 (amended): the subcommands of [debug] are a fixed table, whatever the
    environment the process starts in: they are, in this order, index, list,
    list-indexed, merge, meta, trigrams and queue, no name comes twice, and
    each has a handler of its own and no subcommands.  index, list,
    list-indexed, merge and queue each have a flag set of their own, with
    typed flags; meta and trigrams have none.  [debug] itself has no handler. *)
Theorem debugCmd_static_table :
  map Name (Subcommands debugCmd)
  = ["index"; "list"; "list-indexed"; "merge"; "meta"; "trigrams"; "queue"]
  /\ NoDup (map Name (Subcommands debugCmd))
  /\ Forall (fun c => Exec c <> None /\ Subcommands c = []) (Subcommands debugCmd)
  /\ Exec debugCmd = None
  /\ map (fun c => flag.name <$> FlagSet c) (Subcommands debugCmd)
     = [Some "debug index"; Some "debug list"; Some "debug list-indexed";
        Some "debug merge"; None; None; Some "debug queue"]
  /\ (flagCount debugMerge = Some 4%nat
      /\ flagDefault debugMerge "simulate" = Some (flag.boolValue false)
      /\ flagDefault debugMerge "merge_target_size"
         = Some (flag.int64Value (getEnvWithDefaultInt64 "SRC_TARGET_SIZE" 2000))
      /\ flagDefault debugMerge "index"
         = Some (flag.stringValue (getEnvWithDefaultString "DATA_DIR" DefaultDir))
      /\ flagDefault debugMerge "debug" = Some (flag.boolValue srcLogLevelIsDebug))
  /\ (flagCount debugQueue = Some 2%nat
      /\ flagDefault debugQueue "hostname" = Some (flag.stringValue "localhost")
      /\ flagDefault debugQueue "port" = Some (flag.uintValue 6072)).
Proof.
  split; [reflexivity |].
  split; [apply (bool_decide_unpack _); vm_compute; reflexivity |].
  split; [repeat constructor; discriminate |].
  split; [reflexivity |].
  split.
  { cbn [map Subcommands debugCmd].
    unfold debugIndex, debugList, debugListIndexed.
    pose proof (registerRootFlags_name (flag.NewFlagSet "debug index")) as H1.
    pose proof (registerRootFlags_name (flag.NewFlagSet "debug list")) as H2.
    pose proof (registerRootFlags_name (flag.NewFlagSet "debug list-indexed")) as H3.
    destruct (registerRootFlags (flag.NewFlagSet "debug index")) as [c1 f1].
    destruct (registerRootFlags (flag.NewFlagSet "debug list")) as [c2 f2].
    destruct (registerRootFlags (flag.NewFlagSet "debug list-indexed")) as [c3 f3].
    cbn in H1, H2, H3 |- *. rewrite H1, H2, H3. reflexivity. }
  split; repeat split; vm_compute; reflexivity.
Qed.


(** ** More about the debug commands *)

Local Abbreviation debugListExec :=
  (debugListExec (rootConfig := rootConfig) (URL := URL) IndexDir).
Local Abbreviation debugListIndexedExec :=
  (debugListIndexedExec (rootConfig := rootConfig) (URL := URL) IndexDir).
Local Abbreviation debugList :=
  (debugList (URL := URL) rootFlags rootConfigDefault IndexDir).
Local Abbreviation debugListIndexed :=
  (debugListIndexed (URL := URL) rootFlags rootConfigDefault IndexDir).
Local Abbreviation printlns :=
  (printlns (rootConfig := rootConfig) (Server := Server) (URL := URL)).
Local Abbreviation event :=
  (event (rootConfig := rootConfig) (Server := Server) (URL := URL)).

(** *** debug index, every argument *)

(** The run of [debug index] on an argument that reads as the [int] [n],
    once the server is constructed. *)
Lemma debugIndexExec_run_int {W : Type} (h : handler W) (w : W) (conf : rootConfig)
    (arg0 : string) (rest : list string) (n : Z) (s : Server) :
  strconv.Atoi arg0 = (n, nil) ->
  fst (h (newServer conf) w) = Ok s ->
  let w1 := snd (h (newServer conf) w) in
  let forced := h (forceIndex s (n mod 2^32)) w1 in
  run h (debugIndexExec conf (arg0 :: rest)) w
  = (snd (fst forced), snd (h (log_Println (fst (fst forced))) (snd forced)),
     [Event (newServer conf) (Ok s);
      Event (forceIndex s (n mod 2^32)) (fst forced);
      Event (log_Println (fst (fst forced))) tt]).
Proof.
  intros Hatoi Hserver.
  pose proof (debugIndexExec_run h w conf arg0 rest) as Hrun. cbv zeta in Hrun.
  destruct (h (newServer conf) w) as [[s' | e] w1]; cbn in Hserver; [| discriminate].
  injection Hserver as ->. rewrite Hatoi in Hrun. unfold nil, uint32 in Hrun.
  cbn [snd].
  destruct (h (forceIndex s (n mod 2^32)) w1) as [[msg err] w2].
  cbn [fst snd] in Hrun |- *.
  destruct (h (log_Println msg) w2) as [[] w3].
  rewrite Hrun. reflexivity.
Qed.

(** X1: when the argument is a signed decimal numeral of an [int] [n] and
    the server is constructed, [forceIndex] is called once, with [n mod 2^32]
    (which is [n] itself for [0 <= n < 2^32]); its message is the one line
    logged and its error is what the command returns. *)
Theorem debugIndex_well_formed_id (W : Type) (h : handler W) (w : W) (conf : rootConfig)
    (arg0 : string) (rest : list string) (n : Z) (s : Server) :
  signedDecimal arg0 = Some n ->
  inInt n = true ->
  fst (h (newServer conf) w) = Ok s ->
  let o := run h (debugIndexExec conf (arg0 :: rest)) w in
  let forced := fst (h (forceIndex s (n mod 2^32)) (snd (h (newServer conf) w))) in
  forceIndexCalls (calls o) = [(s, n mod 2^32)]
  /\ (0 <= n < 2^32 -> n mod 2^32 = n)
  /\ logged (calls o) = [fst forced]
  /\ returned o = snd forced.
Proof.
  intros Hs Hn Hserver o forced. subst o forced.
  pose proof (Atoi_of_signedDecimal arg0 n Hs Hn) as Hatoi.
  pose proof (debugIndexExec_run_int h w conf arg0 rest n s Hatoi Hserver) as Hrun.
  cbv zeta in Hrun. rewrite Hrun.
  split; [reflexivity |]. split; [intros Hr; apply Z.mod_small; exact Hr |].
  split; reflexivity.
Qed.

(** X2: [forceIndex] is called exactly when there is an argument, the
    server is constructed and the argument is not malformed. *)
Theorem debugIndex_forceIndex_iff (W : Type) (h : handler W) (w : W) (conf : rootConfig)
    (args : list string) :
  forceIndexCalls (calls (run h (debugIndexExec conf args) w)) <> []
  <-> exists arg0 rest s,
        args = arg0 :: rest
        /\ fst (h (newServer conf) w) = Ok s
        /\ malformed arg0 = false.
Proof.
  split.
  - destruct args as [| arg0 rest]; [intros H; exfalso; apply H; reflexivity |].
    pose proof (debugIndexExec_run h w conf arg0 rest) as Hrun. cbv zeta in Hrun.
    destruct (h (newServer conf) w) as [[s | e] w1];
      [| rewrite Hrun; intros H; exfalso; apply H; reflexivity].
    destruct (strconv.Atoi arg0) as [id [e |]] eqn:Hatoi;
      [rewrite Hrun; intros H; exfalso; apply H; reflexivity |].
    intros _. exists arg0, rest, s. split; [reflexivity |]. split; [reflexivity |].
    apply Atoi_nil_well_formed in Hatoi. apply malformed_false_iff. exists id. exact Hatoi.
  - intros (arg0 & rest & s & -> & Hserver & Hok).
    apply malformed_false_iff in Hok as (n & Hs & Hn).
    pose proof (Atoi_of_signedDecimal arg0 n Hs Hn) as Hatoi.
    pose proof (debugIndexExec_run_int h w conf arg0 rest n s Hatoi Hserver) as Hrun.
    cbv zeta in Hrun. rewrite Hrun. discriminate.
Qed.


(** X3: [debug index] returns nil exactly when there is an argument, the
    server is constructed, the argument is a signed decimal numeral of an
    [int] and [forceIndex] returns no error for it. *)
Theorem debugIndex_succeeds_iff (W : Type) (h : handler W) (w : W) (conf : rootConfig)
    (args : list string) :
  returned (run h (debugIndexExec conf args) w) = nil
  <-> exists arg0 rest s n,
        args = arg0 :: rest
        /\ fst (h (newServer conf) w) = Ok s
        /\ signedDecimal arg0 = Some n
        /\ inInt n = true
        /\ snd (fst (h (forceIndex s (n mod 2^32)) (snd (h (newServer conf) w)))) = nil.
Proof.
  split.
  - destruct args as [| arg0 rest]; [discriminate |].
    pose proof (debugIndexExec_run h w conf arg0 rest) as Hrun. cbv zeta in Hrun.
    destruct (h (newServer conf) w) as [[s | e] w1] eqn:Hserver;
      [| rewrite Hrun; discriminate].
    destruct (strconv.Atoi arg0) as [id [e |]] eqn:Hatoi; [rewrite Hrun; discriminate |].
    clear Hrun.
    pose proof (debugIndexExec_run_int h w conf arg0 rest id s Hatoi) as Hrun.
    rewrite Hserver in Hrun. specialize (Hrun eq_refl). cbv zeta in Hrun. rewrite Hrun.
    unfold returned. cbn [fst snd]. intros Hnil.
    apply Atoi_nil_well_formed in Hatoi as [Hs Hn].
    exists arg0, rest, s, id. repeat split; assumption.
  - intros (arg0 & rest & s & n & -> & Hserver & Hs & Hn & Hnil).
    pose proof (Atoi_of_signedDecimal arg0 n Hs Hn) as Hatoi.
    pose proof (debugIndexExec_run_int h w conf arg0 rest n s Hatoi Hserver) as Hrun.
    cbv zeta in Hrun. rewrite Hrun. exact Hnil.
Qed.

(** X4: repository IDs are read modulo 2^32: two arguments that are signed
    decimal numerals of [int]s with the same remainder run the same, for the
    same result, world and calls. *)
Theorem debugIndex_id_modulo (W : Type) (h : handler W) (w : W) (conf : rootConfig)
    (a b : string) (rest rest' : list string) (n m : Z) :
  signedDecimal a = Some n ->
  inInt n = true ->
  signedDecimal b = Some m ->
  inInt m = true ->
  n mod 2^32 = m mod 2^32 ->
  run h (debugIndexExec conf (a :: rest)) w = run h (debugIndexExec conf (b :: rest')) w.
Proof.
  intros Ha Hn Hb Hm Hmod.
  pose proof (Atoi_of_signedDecimal a n Ha Hn) as Hatoi_a.
  pose proof (Atoi_of_signedDecimal b m Hb Hm) as Hatoi_b.
  destruct (h (newServer conf) w) as [[s | e] w1] eqn:Hserver.
  - pose proof (debugIndexExec_run_int h w conf a rest n s Hatoi_a) as Hrun_a.
    pose proof (debugIndexExec_run_int h w conf b rest' m s Hatoi_b) as Hrun_b.
    rewrite Hserver in Hrun_a, Hrun_b.
    specialize (Hrun_a eq_refl). specialize (Hrun_b eq_refl).
    cbv zeta in Hrun_a, Hrun_b. rewrite Hrun_a, Hrun_b, Hmod. reflexivity.
  - pose proof (debugIndexExec_run h w conf a rest) as Hrun_a.
    pose proof (debugIndexExec_run h w conf b rest') as Hrun_b.
    cbv zeta in Hrun_a, Hrun_b. rewrite Hserver in Hrun_a, Hrun_b.
    rewrite Hrun_a, Hrun_b. reflexivity.
Qed.

(** X5: with an argument, the first thing [debug index] does is construct
    the server, before it looks at the argument: for a malformed argument
    that call is the only one, and the world is the one [newServer] left. *)
Theorem debugIndex_constructs_server_first (W : Type) (h : handler W) (w : W)
    (conf : rootConfig) (arg0 : string) (rest : list string) :
  let o := run h (debugIndexExec conf (arg0 :: rest)) w in
  exists tail,
    calls o = Event (newServer conf) (fst (h (newServer conf) w)) :: tail
    /\ (malformed arg0 = true -> tail = [] /\ world o = snd (h (newServer conf) w)).
Proof.
  intros o. subst o.
  pose proof (debugIndexExec_run h w conf arg0 rest) as Hrun. cbv zeta in Hrun.
  destruct (h (newServer conf) w) as [[s | e] w1].
  - destruct (strconv.Atoi arg0) as [id [e |]] eqn:Hatoi.
    + rewrite Hrun. exists []. split; [reflexivity |]. intros _. split; reflexivity.
    + destruct (h (forceIndex s (uint32 id)) w1) as [r w2].
      destruct (h (log_Println (fst r)) w2) as [u w3].
      rewrite Hrun. eexists. split; [reflexivity |].
      intros Hbad. apply Atoi_malformed in Hbad. rewrite Hatoi in Hbad.
      exfalso. apply Hbad. reflexivity.
  - rewrite Hrun. exists []. split; [reflexivity |]. intros _. split; reflexivity.
Qed.


(** *** Runs of programs put together *)

Lemma run_bind {W A B : Type} (h : handler W) (p : prog A) (f : A -> prog B) (w : W) :
  run h (bind p f) w
  = (let '(a, w1, t1) := run h p w in
     let '(b, w2, t2) := run h (f a) w1 in
     (b, w2, (t1 ++ t2)%list)).
Proof.
  revert w. induction p as [r | a k IH]; intros w; cbn [bind run].
  - destruct (run h (f r) w) as [[b w2] t2]. reflexivity.
  - destruct (h a w) as [x w1]. rewrite IH.
    destruct (run h (k x) w1) as [[a' w2] t1].
    destruct (run h (f a') w2) as [[b w3] t2]. reflexivity.
Qed.

Lemma printEach_run {W : Type} (h : handler W) (ids : list Z) (w : W) :
  run h (printEach ids) w
  = (tt, fold_left (fun w r => snd (h (fmt_Println r) w)) ids w, printlns ids).
Proof.
  revert w. induction ids as [| r ids IH]; intros w; cbn [printEach run]; [reflexivity |].
  destruct (h (fmt_Println r) w) as [[] w1] eqn:Hr. rewrite IH.
  cbn [fold_left printlns map]. rewrite Hr. reflexivity.
Qed.

Lemma printed_printlns (ids : list Z) : printed (printlns ids) = ids.
Proof.
  unfold printed, printlns.
  induction ids as [| r ids IH]; cbn in *; [reflexivity | f_equal; exact IH].
Qed.

Lemma sourcegraphCalls_printlns (ids : list Z) : sourcegraphCalls (printlns ids) = [].
Proof.
  unfold sourcegraphCalls, printlns.
  induction ids as [| r ids IH]; cbn in *; [reflexivity | exact IH].
Qed.

Lemma listIndexedCalls_printlns (ids : list Z) : listIndexedCalls (printlns ids) = [].
Proof.
  unfold listIndexedCalls, printlns.
  induction ids as [| r ids IH]; cbn in *; [reflexivity | exact IH].
Qed.

(** *** debug trigrams and debug meta, with an argument *)

(** X6: with an argument, [debug trigrams] reads the statistics of the shard
    the first argument names and [debug meta] its metadata: that is the one
    call of the run, whatever arguments follow, and the error it returns is
    the error of the command. *)
Theorem debug_shard_commands_read_first_path (W : Type) (h : handler W) (w : W)
    (path : string) (rest : list string) :
  let t := run h (debugTrigramsExec tt (path :: rest)) w in
  let m := run h (debugMetaExec tt (path :: rest)) w in
  (calls t = [Event (printShardStats path) (returned t)]
   /\ shardStatsCalls (calls t) = [path]
   /\ metaDataCalls (calls t) = []
   /\ t = (fst (h (printShardStats path) w), snd (h (printShardStats path) w), calls t))
  /\ (calls m = [Event (printMetaData path) (returned m)]
      /\ metaDataCalls (calls m) = [path]
      /\ shardStatsCalls (calls m) = []
      /\ m = (fst (h (printMetaData path) w), snd (h (printMetaData path) w), calls m)).
Proof.
  cbv zeta. cbn [debugTrigramsExec debugMetaExec call run].
  destruct (h (printShardStats path) w) as [e1 w1].
  destruct (h (printMetaData path) w) as [e2 w2].
  repeat split.
Qed.

(** *** debug list and debug list-indexed *)

(** The ways a run of [debug list] can go. *)
Lemma debugListExec_run {W : Type} (h : handler W) (w : W) (conf : rootConfig)
    (excludeIndexed : bool) (args : list string) :
  let o := run h (debugListExec (conf, excludeIndexed) args) w in
  match h (newServer conf) w with
  | (Err e, w1) => o = (Some e, w1, [Event (newServer conf) (Err e)])
  | (Ok s, w1) =>
      let listed := h (listIndexed (IndexDir s)) w1 in
      let indexed := if excludeIndexed then [] else fst listed in
      let w2 := if excludeIndexed then w1 else snd listed in
      let pre := Event (newServer conf) (Ok s)
                 :: (if excludeIndexed then []
                     else [Event (listIndexed (IndexDir s)) (fst listed)]) in
      match h (Sourcegraph_List s indexed) w2 with
      | (Err e, w3) =>
          o = (Some e, w3, (pre ++ [Event (Sourcegraph_List s indexed) (Err e)])%list)
      | (Ok ids, w3) =>
          o = (nil, fold_left (fun w r => snd (h (fmt_Println r) w)) ids w3,
               (pre ++ Event (Sourcegraph_List s indexed) (Ok ids) :: printlns ids)%list)
      end
  end.
Proof.
  cbv zeta. unfold debugListExec. cbn [run].
  destruct (h (newServer conf) w) as [[s | e] w1]; [| reflexivity].
  rewrite run_bind.
  destruct excludeIndexed; cbn [negb call run].
  - destruct (h (Sourcegraph_List s []) w1) as [[ids | e] w3]; [| reflexivity].
    rewrite run_bind, printEach_run. cbn [run app]. rewrite ?app_nil_r. reflexivity.
  - destruct (h (listIndexed (IndexDir s)) w1) as [indexed w2]. cbn [run fst snd].
    destruct (h (Sourcegraph_List s indexed) w2) as [[ids | e] w3]; [| reflexivity].
    rewrite run_bind, printEach_run. cbn [run app]. rewrite ?app_nil_r. reflexivity.
Qed.

(** The ways a run of [debug list-indexed] can go. *)
Lemma debugListIndexedExec_run {W : Type} (h : handler W) (w : W) (conf : rootConfig)
    (args : list string) :
  let o := run h (debugListIndexedExec conf args) w in
  match h (newServer conf) w with
  | (Err e, w1) => o = (Some e, w1, [Event (newServer conf) (Err e)])
  | (Ok s, w1) =>
      let listed := h (listIndexed (IndexDir s)) w1 in
      o = (nil, fold_left (fun w r => snd (h (fmt_Println r) w)) (fst listed) (snd listed),
           Event (newServer conf) (Ok s)
           :: Event (listIndexed (IndexDir s)) (fst listed) :: printlns (fst listed))
  end.
Proof.
  cbv zeta. unfold debugListIndexedExec. cbn [run].
  destruct (h (newServer conf) w) as [[s | e] w1]; [| reflexivity].
  cbn [run].
  destruct (h (listIndexed (IndexDir s)) w1) as [indexed w2]. cbn [fst snd].
  rewrite run_bind, printEach_run. cbn [run app]. rewrite ?app_nil_r. reflexivity.
Qed.


Lemma printed_cons (e : event) (tr : list event) :
  printed (e :: tr)
  = match act e with fmt_Println v => v :: printed tr | _ => printed tr end.
Proof. unfold printed. cbn [omap list_omap]. destruct (act e); reflexivity. Qed.

Lemma sourcegraphCalls_cons (e : event) (tr : list event) :
  sourcegraphCalls (e :: tr)
  = match act e with
    | Sourcegraph_List s indexed => (s, indexed) :: sourcegraphCalls tr
    | _ => sourcegraphCalls tr
    end.
Proof. unfold sourcegraphCalls. cbn [omap list_omap]. destruct (act e); reflexivity. Qed.

Lemma listIndexedCalls_cons (e : event) (tr : list event) :
  listIndexedCalls (e :: tr)
  = match act e with listIndexed dir => dir :: listIndexedCalls tr | _ => listIndexedCalls tr end.
Proof. unfold listIndexedCalls. cbn [omap list_omap]. destruct (act e); reflexivity. Qed.

(** X7: [debug list] asks [listIndexed] for the index directory of the
    server exactly when [-exclude_indexed] is not set, and hands what it
    returned, or nothing when the flag is set, to the one call of
    [Sourcegraph.List]; when the server cannot be constructed it does
    neither and prints nothing. *)
Theorem debugList_exclude_indexed (W : Type) (h : handler W) (w : W) (conf : rootConfig)
    (excludeIndexed : bool) (args : list string) :
  let o := run h (debugListExec (conf, excludeIndexed) args) w in
  match h (newServer conf) w with
  | (Err e, _) =>
      returned o = Some e
      /\ listIndexedCalls (calls o) = []
      /\ sourcegraphCalls (calls o) = []
      /\ printed (calls o) = []
  | (Ok s, w1) =>
      listIndexedCalls (calls o) = (if excludeIndexed then [] else [IndexDir s])
      /\ sourcegraphCalls (calls o)
         = [(s, if excludeIndexed then [] else fst (h (listIndexed (IndexDir s)) w1))]
  end.
Proof.
  intros o. subst o.
  pose proof (debugListExec_run h w conf excludeIndexed args) as Hrun. cbv zeta in Hrun.
  destruct (h (newServer conf) w) as [[s | e] w1]; [| rewrite Hrun; repeat split].
  destruct excludeIndexed.
  - destruct (h (Sourcegraph_List s []) w1) as [[ids | e] w3]; rewrite Hrun;
      unfold calls; cbn [snd app];
      rewrite ?listIndexedCalls_cons, ?sourcegraphCalls_cons; cbn [act];
      rewrite ?listIndexedCalls_printlns, ?sourcegraphCalls_printlns; split; reflexivity.
  - destruct (h (listIndexed (IndexDir s)) w1) as [indexed w2]. cbn [fst snd] in Hrun |- *.
    destruct (h (Sourcegraph_List s indexed) w2) as [[ids | e] w3]; rewrite Hrun;
      unfold calls; cbn [snd app];
      rewrite ?listIndexedCalls_cons, ?sourcegraphCalls_cons; cbn [act];
      rewrite ?listIndexedCalls_printlns, ?sourcegraphCalls_printlns; split; reflexivity.
Qed.

(** X8: [debug list] either returns nil, and then what it printed is the
    IDs [Sourcegraph.List] returned, one [fmt.Println] each, in order, after
    every other call; or it returns an error and has printed nothing. *)
Theorem debugList_prints_ids (W : Type) (h : handler W) (w : W) (conf : rootConfig)
    (excludeIndexed : bool) (args : list string) :
  let o := run h (debugListExec (conf, excludeIndexed) args) w in
  (returned o = nil
   /\ exists s indexed ids pre,
        calls o = (pre ++ Event (Sourcegraph_List s indexed) (Ok ids) :: printlns ids)%list
        /\ printed pre = []
        /\ printed (calls o) = ids)
  \/ (returned o <> nil /\ printed (calls o) = []).
Proof.
  intros o. subst o.
  pose proof (debugListExec_run h w conf excludeIndexed args) as Hrun. cbv zeta in Hrun.
  destruct (h (newServer conf) w) as [[s | e] w1];
    [| rewrite Hrun; right; split; [discriminate | reflexivity]].
  destruct excludeIndexed.
  - destruct (h (Sourcegraph_List s []) w1) as [[ids | e] w3]; rewrite Hrun.
    + left. split; [reflexivity |].
      exists s, [], ids, [Event (newServer conf) (Ok s)].
      split; [reflexivity |]. split; [reflexivity |].
      unfold calls. cbn [snd app]. rewrite !printed_cons. cbn [act].
      apply printed_printlns.
    + right. split; [discriminate | reflexivity].
  - destruct (h (listIndexed (IndexDir s)) w1) as [indexed w2]. cbn [fst snd] in Hrun.
    destruct (h (Sourcegraph_List s indexed) w2) as [[ids | e] w3]; rewrite Hrun.
    + left. split; [reflexivity |].
      exists s, indexed, ids,
        [Event (newServer conf) (Ok s); Event (listIndexed (IndexDir s)) indexed].
      split; [reflexivity |]. split; [reflexivity |].
      unfold calls. cbn [snd app]. rewrite !printed_cons. cbn [act].
      apply printed_printlns.
    + right. split; [discriminate | reflexivity].
Qed.

(** X9: once the server is constructed, [debug list-indexed] cannot fail:
    it asks [listIndexed] for the index directory of the server, prints what
    it returned, one [fmt.Println] each, in order, and returns nil; it never
    calls [Sourcegraph.List]. *)
Theorem debugListIndexed_prints_index (W : Type) (h : handler W) (w : W)
    (conf : rootConfig) (args : list string) :
  let o := run h (debugListIndexedExec conf args) w in
  match h (newServer conf) w with
  | (Err e, w1) => o = (Some e, w1, [Event (newServer conf) (Err e)])
  | (Ok s, w1) =>
      returned o = nil
      /\ listIndexedCalls (calls o) = [IndexDir s]
      /\ printed (calls o) = fst (h (listIndexed (IndexDir s)) w1)
      /\ sourcegraphCalls (calls o) = []
  end.
Proof.
  intros o. subst o.
  pose proof (debugListIndexedExec_run h w conf args) as Hrun. cbv zeta in Hrun.
  destruct (h (newServer conf) w) as [[s | e] w1]; [| exact Hrun].
  rewrite Hrun. unfold calls, returned. cbn [fst snd].
  rewrite !listIndexedCalls_cons, !printed_cons, !sourcegraphCalls_cons. cbn [act].
  rewrite listIndexedCalls_printlns, printed_printlns, sourcegraphCalls_printlns.
  repeat split.
Qed.

(** What [debug list] without [-exclude_indexed] hands to [Sourcegraph.List]
    once the server is constructed. *)
Lemma debugList_run_indexed {W : Type} (h : handler W) (w : W) (conf : rootConfig)
    (args : list string) :
  match h (newServer conf) w with
  | (Err e, _) => True
  | (Ok s, w1) =>
      sourcegraphCalls (calls (run h (debugListExec (conf, false) args) w))
      = [(s, fst (h (listIndexed (IndexDir s)) w1))]
  end.
Proof.
  pose proof (debugListExec_run h w conf false args) as Hrun. cbv zeta in Hrun.
  destruct (h (newServer conf) w) as [[s | e] w1]; [| exact I].
  destruct (h (listIndexed (IndexDir s)) w1) as [indexed w2]. cbn [fst snd] in Hrun |- *.
  destruct (h (Sourcegraph_List s indexed) w2) as [[ids | e] w3]; rewrite Hrun;
    unfold calls; cbn [snd app];
    rewrite ?sourcegraphCalls_cons; cbn [act];
    rewrite ?sourcegraphCalls_printlns; reflexivity.
Qed.

(** X10: from the same world and configuration, what [debug list] without
    [-exclude_indexed] sends to [Sourcegraph.List] as the current index is
    what [debug list-indexed] prints. *)
Theorem debugList_sends_what_list_indexed_prints (W : Type) (h : handler W) (w : W)
    (conf : rootConfig) (args args' : list string) (s : Server) :
  fst (h (newServer conf) w) = Ok s ->
  map snd (sourcegraphCalls (calls (run h (debugListExec (conf, false) args) w)))
  = [printed (calls (run h (debugListIndexedExec conf args') w))].
Proof.
  intros Hserver.
  pose proof (debugList_run_indexed h w conf args) as Hlist.
  pose proof (debugListIndexedExec_run h w conf args') as Hidx. cbv zeta in Hidx.
  destruct (h (newServer conf) w) as [[s' | e] w1]; cbn in Hserver; [| discriminate].
  rewrite Hlist, Hidx. unfold calls. cbn [snd map].
  rewrite !printed_cons. cbn [act]. rewrite printed_printlns. reflexivity.
Qed.


(** *** debug merge, the whole run *)

(** X11: [debug merge] switches the debug logger on exactly when [-debug] is
    set, and before it merges; its last call is its one call of [doMerge],
    whose error is returned as it is; the positional arguments change
    nothing. *)
Theorem debugMerge_logger_then_merge (W : Type) (h : handler W) (w : W) (v : mergeVars)
    (args : list string) :
  let o := run h (debugMergeExec v args) w in
  calls o
  = ((if dbg v then [Event setDebug tt] else [])
     ++ [Event (doMerge (index v) (mulInt64 (mulInt64 (targetSize v) 1024) 1024)
                  (simulate v))
           (returned o)])%list
  /\ o = run h (debugMergeExec v []) w.
Proof.
  intros o. subst o.
  rewrite (debugMergeExec_run h w v args), (debugMergeExec_run h w v []).
  split; reflexivity.
Qed.

(** X12: whatever the [merge_target_size] flag holds, the size handed to
    [doMerge] is an [int64], congruent modulo 2^64 to the flag times
    [1024*1024], and a whole number of MiB. *)
Theorem debugMerge_target_size_whole_MiB (W : Type) (h : handler W) (w : W)
    (v : mergeVars) (args : list string) :
  exists bytes,
    map (fun c => snd (fst c)) (doMergeCalls (calls (run h (debugMergeExec v args) w)))
    = [bytes]
    /\ - 2^63 <= bytes < 2^63
    /\ (bytes - targetSize v * (1024 * 1024)) mod 2^64 = 0
    /\ bytes mod (1024 * 1024) = 0.
Proof.
  exists (wrapInt64 (targetSize v * (1024 * 1024))).
  split; [rewrite debugMerge_doMergeCalls, targetSizeBytes_wraps; reflexivity |].
  unfold wrapInt64.
  pose proof (Z.div_mod (targetSize v * (1024 * 1024) + 2^63) (2^64) ltac:(lia)) as E.
  pose proof (Z.mod_pos_bound (targetSize v * (1024 * 1024) + 2^63) (2^64) ltac:(lia)) as B.
  set (q := (targetSize v * (1024 * 1024) + 2^63) / 2^64) in *.
  set (r := (targetSize v * (1024 * 1024) + 2^63) mod 2^64) in *.
  split; [lia |]. split.
  - replace (r - 2^63 - targetSize v * (1024 * 1024)) with ((- q) * 2^64) by lia.
    apply Z.mod_mul. lia.
  - replace (r - 2^63) with ((targetSize v - 2^44 * q) * (1024 * 1024)) by lia.
    apply Z.mod_mul. lia.
Qed.

(** *** debug queue, the whole run *)

(** The ways a run of [debug queue] can go. *)
Lemma debugQueueExec_run {W : Type} (h : handler W) (w : W) (v : queueVars)
    (args : list string) :
  let o := run h (debugQueueExec v args) w in
  match url.Parse parseRest setFragment (queueURL v) with
  | Err err =>
      o = (Some (Errorf "parsing URL %q: %s" [opString (queueURL v); opError err]), w, [])
  | Ok address =>
      match
        http.NewRequestWithContext parseRest setFragment http.MethodGet (URL_String address)
      with
      | Err err => o = (Some (Errorf "constructing request: %w" [opError err]), w, [])
      | Ok request =>
          let request := http.Header_Set request "Accept" "text/plain" in
          match h (DefaultClient_Do request) w with
          | (Err err, w1) => o = (Some err, w1, [Event (DefaultClient_Do request) (Err err)])
          | (Ok response, w1) =>
              let copied := h (io_Copy_Stdout (http.Body response)) w1 in
              let closing := h (Body_Close response) (snd copied) in
              o = (match snd (fst copied) with
                   | Some e => Some (Errorf "writing to stdout: %w" [opError e])
                   | None => nil
                   end,
                   snd closing,
                   [Event (DefaultClient_Do request) (Ok response);
                    Event (io_Copy_Stdout (http.Body response)) (fst copied);
                    Event (Body_Close response) (fst closing)])
          end
      end
  end.
Proof.
  cbv zeta. unfold debugQueueExec.
  destruct (url.Parse parseRest setFragment (queueURL v)) as [address | err]; [| reflexivity].
  destruct (http.NewRequestWithContext parseRest setFragment http.MethodGet
              (URL_String address)) as [request | err]; [| reflexivity].
  cbn [run].
  destruct (h (DefaultClient_Do (http.Header_Set request "Accept" "text/plain")) w)
    as [[response | err] w1]; [| reflexivity].
  cbn [run].
  destruct (h (io_Copy_Stdout (http.Body response)) w1) as [[n err] w2]. cbn [run fst snd].
  destruct (h (Body_Close response) w2) as [closing w3].
  destruct err; reflexivity.
Qed.

(** X13: [debug queue] closes the body of every response it obtains, once,
    whether the copy to stdout succeeds or not, and closes nothing else; it
    obtains at most one. *)
Theorem debugQueue_closes_every_response (W : Type) (h : handler W) (w : W)
    (v : queueVars) (args : list string) :
  let o := run h (debugQueueExec v args) w in
  closed (calls o) = responses (calls o)
  /\ (length (responses (calls o)) <= 1)%nat
  /\ length (copyErrors (calls o)) = length (responses (calls o)).
Proof.
  intros o. subst o.
  pose proof (debugQueueExec_run h w v args) as Hrun. cbv zeta in Hrun.
  destruct (url.Parse parseRest setFragment (queueURL v)) as [address | err];
    [| rewrite Hrun; cbn; repeat split; lia].
  destruct (http.NewRequestWithContext parseRest setFragment http.MethodGet
              (URL_String address)) as [request | err];
    [| rewrite Hrun; cbn; repeat split; lia].
  destruct (h (DefaultClient_Do (http.Header_Set request "Accept" "text/plain")) w)
    as [[response | err] w1]; rewrite Hrun; cbn; repeat split; lia.
Qed.

(** X14: [debug queue] returns nil exactly when it obtained a response and
    the copy of its body to stdout returned no error; neither the status of
    the response nor what closing the body returns has a say. *)
Theorem debugQueue_succeeds_iff (W : Type) (h : handler W) (w : W) (v : queueVars)
    (args : list string) :
  let o := run h (debugQueueExec v args) w in
  returned o = nil
  <-> (exists response, responses (calls o) = [response]) /\ copyErrors (calls o) = [nil].
Proof.
  intros o. subst o.
  pose proof (debugQueueExec_run h w v args) as Hrun. cbv zeta in Hrun.
  destruct (url.Parse parseRest setFragment (queueURL v)) as [address | err];
    [| rewrite Hrun; cbn; split; [discriminate | intros [[r Hr] _]; discriminate]].
  destruct (http.NewRequestWithContext parseRest setFragment http.MethodGet
              (URL_String address)) as [request | err];
    [| rewrite Hrun; cbn; split; [discriminate | intros [[r Hr] _]; discriminate]].
  destruct (h (DefaultClient_Do (http.Header_Set request "Accept" "text/plain")) w)
    as [[response | err] w1];
    [| rewrite Hrun; cbn; split; [discriminate | intros [[r Hr] _]; discriminate]].
  rewrite Hrun. cbn.
  destruct (h (io_Copy_Stdout (http.Body response)) w1) as [[n [e |]] w2]; cbn.
  - split; [discriminate | intros [_ Hc]; discriminate].
  - split; [intros _; split; [exists response |]; reflexivity | reflexivity].
Qed.


(** *** debug queue, the address *)

(** [url.Parse] of a string with a control byte before its first [#]. *)
Lemma Parse_control_byte (raw : string) :
  url.stringContainsCTLByte (fst (fst (strings.Cut raw "#"))) = true ->
  url.Parse parseRest setFragment raw
  = Err (urlError "parse" (fst (fst (strings.Cut raw "#")))
           (New "net/url: invalid control character in URL")).
Proof.
  intros H. unfold url.Parse, url.parse.
  destruct (strings.Cut raw "#") as [[u frag] found]. cbn [fst] in H.
  rewrite H. reflexivity.
Qed.

(** [url.Parse] of a string with neither [#] nor a control byte. *)
Lemma Parse_plain (raw : string) :
  snd (strings.Cut raw "#") = false ->
  url.stringContainsCTLByte raw = false ->
  url.Parse parseRest setFragment raw
  = match parseRest raw with
    | Ok address => Ok address
    | Err err => Err (urlError "parse" raw err)
    end.
Proof.
  intros Hcut Hctl. unfold url.Parse, url.parse.
  rewrite (Cut_not_found_eq _ _ Hcut), Hctl.
  destruct (parseRest raw); reflexivity.
Qed.

(** X15: a control byte in [-hostname], before any [#] of it, stops
    [debug queue] at [url.Parse]: no request is made, nothing is printed, the
    world is as it was, and the error returned is the "parsing URL" one
    around [net/url]'s invalid-control-character error. *)
Theorem debugQueue_control_byte_hostname (W : Type) (h : handler W) (w : W) (v : queueVars)
    (args : list string) :
  url.stringContainsCTLByte (fst (fst (strings.Cut (hostname v) "#"))) = true ->
  let o := run h (debugQueueExec v args) w in
  calls o = []
  /\ world o = w
  /\ exists u,
       returned o
       = Some (Errorf "parsing URL %q: %s"
                 [opString (queueURL v);
                  opError (urlError "parse" u
                             (New "net/url: invalid control character in URL"))]).
Proof.
  intros Hctl o. subst o.
  assert (Hraw : url.stringContainsCTLByte (fst (fst (strings.Cut (queueURL v) "#"))) = true).
  { unfold queueURL. rewrite Cut_app_before.
    change (snd (strings.Cut "http://" "#")) with false. cbv iota.
    rewrite stringContainsCTLByte_app, Cut_app_before.
    apply orb_true_iff. right.
    destruct (snd (strings.Cut (hostname v) "#")) eqn:Hfound; [exact Hctl |].
    rewrite (Cut_not_found _ _ Hfound) in Hctl.
    rewrite stringContainsCTLByte_app, Hctl. reflexivity. }
  pose proof (debugQueueExec_run h w v args) as Hrun. cbv zeta in Hrun.
  rewrite (Parse_control_byte _ Hraw) in Hrun. rewrite Hrun.
  split; [reflexivity |]. split; [reflexivity |].
  eexists. reflexivity.
Qed.

(** X16: with neither [#] nor a control byte in [-hostname], the whole of
    [http://<hostname>:<port>/debug/queue] goes to the parser proper, no
    fragment is cut off it, and [url.Parse] fails only if that parser does,
    with its error around the whole address. *)
Theorem debugQueue_address_parsed_whole (v : queueVars) :
  snd (strings.Cut (hostname v) "#") = false ->
  url.stringContainsCTLByte (hostname v) = false ->
  url.Parse parseRest setFragment (queueURL v)
  = match parseRest (queueURL v) with
    | Ok address => Ok address
    | Err err => Err (urlError "parse" (queueURL v) err)
    end.
Proof.
  intros Hcut Hctl.
  destruct (formatUint_decimal (port v)) as [_ Hport].
  destruct (decimalValue_plain _ _ _ Hport) as [Hpcut Hpctl].
  apply Parse_plain; unfold queueURL.
  - apply Cut_app_not_found; [reflexivity |].
    apply Cut_app_not_found; [exact Hcut |].
    apply Cut_app_not_found; [reflexivity |].
    apply Cut_app_not_found; [exact Hpcut | reflexivity].
  - rewrite !stringContainsCTLByte_app, Hctl, Hpctl. reflexivity.
Qed.

(** X17: the port in the address of [debug queue] is a decimal numeral, not
    empty and without a sign, whose value is the [-port] flag's; below 2^63
    [strconv.Atoi] reads it back. *)
Theorem debugQueue_port_decimal (v : queueVars) :
  exists d,
    queueURL v = "http://" +:+ hostname v +:+ ":" +:+ d +:+ "/debug/queue"
    /\ d <> EmptyString
    /\ decimalValue d 0 = Some (Z.of_N (port v))
    /\ (Z.of_N (port v) < 2^63 -> strconv.Atoi d = (Z.of_N (port v), nil)).
Proof.
  exists (fmt.formatUint (port v)).
  destruct (formatUint_decimal (port v)) as [Hne Hval].
  split; [reflexivity |]. split; [exact Hne |]. split; [exact Hval |].
  intros Hlt. apply Atoi_of_signedDecimal.
  - apply signedDecimal_unsigned; assumption.
  - unfold inInt. apply andb_true_iff. split; [apply Z.leb_le | apply Z.ltb_lt]; lia.
Qed.

(** *** debug queue against the queue of the specification *)
Section QueueFacts.

Context (formatDuration : Z -> string).
Context (layout : list (list string) -> string).

Local Abbreviation withQueue :=
  (withQueue (rootConfig := rootConfig) (Server := Server) (URL := URL) formatDuration layout).
Local Abbreviation cells := (IndexingQueue.cells formatDuration).
Local Abbreviation render := (IndexingQueue.render formatDuration layout).

(** Against the server, [debug queue] copies the listing to stdout, once
    for the request it makes, and leaves the server as it is. *)
Lemma withQueue_run {W : Type} (h : handler W) (w : W) (s : QueueWorld) (v : queueVars)
    (args : list string) :
  let o := run (withQueue h) (debugQueueExec v args) (w, s) in
  snd (world o) = s
  /\ copied (calls o)
     = map (fun _ => render (clock s) (catalog s) (queue s)) (requests (calls o)).
Proof.
  cbv zeta.
  pose proof (debugQueueExec_run (withQueue h) (w, s) v args) as Hrun. cbv zeta in Hrun.
  destruct (url.Parse parseRest setFragment (queueURL v)) as [address | err];
    [| rewrite Hrun; split; reflexivity].
  destruct (http.NewRequestWithContext parseRest setFragment http.MethodGet
              (URL_String address)) as [request | err];
    [| rewrite Hrun; split; reflexivity].
  cbn [withQueue fst snd] in Hrun.
  destruct (h (io_Copy_Stdout _) w) as [[n e] w2]. cbn [fst snd] in Hrun.
  destruct (h (Body_Close _) w2) as [closing w3]. cbn [fst snd] in Hrun.
  rewrite Hrun. split; reflexivity.
Qed.

(** C6: the listing [debug queue] prints, as the specification has the
    server render it.  Its columns are the ones the help text of
    [debug queue] describes, in its order, and what is copied to stdout is
    the listing of the server as it is, which the command leaves alone.
    Every repository of the catalog has its row.  In the row at index [i],
    Position is [i]; Name and ID are the repository's; IsOnQueue is true
    exactly when the queue has an entry for the ID; with an entry, Age is
    the time since its [EnqueuedAt] and Branches are its desired branches,
    without one Age is [-] and Branches are the indexed branches of the
    repository, as comma-separated name@commit pairs.  The rows are in the
    order of the queue: rows on the queue first, by priority, highest first,
    ties by the time first enqueued.  And Age does not see later updates:
    after any further [Enqueue] calls the row of a repository that was on
    the queue has the Age it had, at the same clock, and an entry first
    enqueued at [t] keeps [t]. *)
Theorem debugQueue_listing_columns (W : Type) (h : handler W) (w : W) (s : QueueWorld)
    (v : queueVars) (args : list string) :
  let o := run (withQueue h) (debugQueueExec v args) (w, s) in
  let rows := IndexingQueue.listing (clock s) (catalog s) (queue s) in
  map fst (columnHeaders (LongHelp debugQueue)) = IndexingQueue.columns
  /\ copied (calls o)
     = map (fun _ => layout (IndexingQueue.columns :: map cells rows)) (requests (calls o))
  /\ snd (world o) = s
  /\ map IndexingQueue.Row.ID rows ≡ₚ map IndexingQueue.ID (catalog s)
  /\ (forall (i : nat) (r : IndexingQueue.Row.t),
        rows !! i = Some r ->
        IndexingQueue.Row.Position r = i
        /\ (IndexingQueue.Row.IsOnQueue r = true
            <-> exists e, e ∈ queue s
                          /\ IndexingQueue.RepositoryID e = IndexingQueue.Row.ID r)
        /\ exists repo,
             repo ∈ catalog s
             /\ IndexingQueue.Row.ID r = IndexingQueue.ID repo
             /\ cells r
                = match IndexingQueue.lookup (queue s) (IndexingQueue.ID repo) with
                  | Some e =>
                      [ fmt.formatUint (N.of_nat i);
                        IndexingQueue.Name repo;
                        fmt.formatUint (Z.to_N (IndexingQueue.ID repo));
                        "true";
                        formatDuration (clock s - IndexingQueue.EnqueuedAt e);
                        IndexingQueue.branchList (IndexingQueue.DesiredBranches e) ]
                  | None =>
                      [ fmt.formatUint (N.of_nat i);
                        IndexingQueue.Name repo;
                        fmt.formatUint (Z.to_N (IndexingQueue.ID repo));
                        "false";
                        "-";
                        IndexingQueue.branchList (IndexingQueue.IndexedBranches repo) ]
                  end)
  /\ (forall (i j : nat) (ri rj : IndexingQueue.Row.t),
        (i < j)%nat -> rows !! i = Some ri -> rows !! j = Some rj ->
        match IndexingQueue.lookup (queue s) (IndexingQueue.Row.ID ri),
              IndexingQueue.lookup (queue s) (IndexingQueue.Row.ID rj) with
        | Some a, Some b =>
            IndexingQueue.Priority b < IndexingQueue.Priority a
            \/ (IndexingQueue.Priority a = IndexingQueue.Priority b
                /\ IndexingQueue.EnqueuedAt a <= IndexingQueue.EnqueuedAt b)
        | None, Some _ => False
        | _, _ => True
        end)
  /\ (forall (later : list (Z * Z * Z * IndexingQueue.BranchCommits)) (r : IndexingQueue.Row.t),
        r ∈ rows -> IndexingQueue.Row.IsOnQueue r = true ->
        exists r',
          r' ∈ IndexingQueue.listing (clock s) (catalog s)
                 (IndexingQueue.EnqueueAll later (queue s))
          /\ IndexingQueue.Row.ID r' = IndexingQueue.Row.ID r
          /\ IndexingQueue.Row.Name r' = IndexingQueue.Row.Name r
          /\ IndexingQueue.Row.IsOnQueue r' = true
          /\ IndexingQueue.Row.Age r' = IndexingQueue.Row.Age r)
  /\ (forall (later : list (Z * Z * Z * IndexingQueue.BranchCommits))
        (t id priority : Z) (branches : IndexingQueue.BranchCommits),
        IndexingQueue.lookup (queue s) id = None ->
        exists e,
          IndexingQueue.lookup
            (IndexingQueue.EnqueueAll later
               (IndexingQueue.Enqueue t id priority branches (queue s))) id = Some e
          /\ IndexingQueue.EnqueuedAt e = t).
Proof.
  intros o rows. subst o rows.
  split; [vm_compute; reflexivity |].
  destruct (withQueue_run h w s v args) as [Hworld Hcopied].
  split; [exact Hcopied |]. split; [exact Hworld |].
  split; [apply listing_IDs |].
  split; [| split; [| split]].
  - intros i r Hr. apply listing_lookup in Hr as (repo & Hrepo & _ & ->).
    split; [reflexivity |].
    split.
    + cbn. rewrite <- lookup_is_Some.
      destruct (IndexingQueue.lookup (queue s) (IndexingQueue.ID repo)) as [e |];
        split; [eexists; reflexivity | reflexivity | discriminate | intros [e He]; discriminate].
    + exists repo. split; [exact Hrepo |]. split; [reflexivity |].
      unfold IndexingQueue.cells, IndexingQueue.row. cbn.
      destruct (IndexingQueue.lookup (queue s) (IndexingQueue.ID repo)); reflexivity.
  - intros i j ri rj Hij Hi Hj.
    apply listing_lookup in Hi as (repoi & _ & Hi & ->).
    apply listing_lookup in Hj as (repoj & _ & Hj & ->).
    pose proof (StronglySorted_lookup _ _ (sort_sorted _) i j _ _ Hij Hi Hj) as Hahead.
    cbn in Hahead |- *. unfold IndexingQueue.ahead in Hahead. cbn [snd] in Hahead.
    destruct (IndexingQueue.lookup (queue s) (IndexingQueue.ID repoi)) as [a |],
             (IndexingQueue.lookup (queue s) (IndexingQueue.ID repoj)) as [b |];
      [| exact I | discriminate | exact I].
    unfold IndexingQueue.before in Hahead. lia.
  - intros later r Hr Hon.
    apply list_elem_of_lookup_1 in Hr as [i Hr].
    apply listing_lookup in Hr as (repo & Hrepo & _ & ->). cbn in Hon |- *.
    destruct (IndexingQueue.lookup (queue s) (IndexingQueue.ID repo)) as [e |] eqn:He;
      [| discriminate].
    destruct (EnqueueAll_EnqueuedAt later _ _ _ He) as (e' & He' & Ht).
    destruct (listing_row (clock s) (catalog s) (IndexingQueue.EnqueueAll later (queue s))
                repo Hrepo) as [i' Hi'].
    eexists. split; [eapply list_elem_of_lookup_2; exact Hi' |].
    rewrite He'. cbn. rewrite Ht. repeat split.
  - intros later t id priority branches Hnew.
    apply (EnqueueAll_EnqueuedAt later _ id
             (IndexingQueue.mkQueueEntry id priority t branches)).
    rewrite Enqueue_lookup, Z.eqb_refl, Hnew. reflexivity.
Qed.

End QueueFacts.

End DebugFacts.

(** ** The claims at concrete inputs *)

(** C1: [debug merge /tmp/shards] with every flag at its default and
    DATA_DIR=/data/index: the usage line says the merge runs inside the
    positional [<dir>], and [doMerge] is called on /data/index. *)
Lemma debugMerge_positional_dir_ignored :
  ShortUsage sampleMerge = "merge [flags] <dir>"
  /\ ShortHelp sampleMerge = "run a full merge operation inside dir"
  /\ doMergeCalls
       (calls (run (scripted (Ok "/data/index") ("", nil))
                 (debugMergeExec (cells sampleMerge) ["/tmp/shards"]) []))
     = [("/data/index", 2097152000, false)].
Proof.
  split; [reflexivity |]. split; [reflexivity |].
  rewrite debugMerge_doMergeCalls. reflexivity.
Qed.

(** C3, as the claim has it, fails at a flag of 2^43 MiB: the product wraps
    to -2^63. *)
Lemma debugMerge_target_size_overflow :
  map (fun c => snd (fst c))
    (doMergeCalls
       (calls (run (scripted (Ok "/data/index") ("", nil))
                 (debugMergeExec (mkMergeVars false 8796093022208 "/data/index" false) []) [])))
  = [-9223372036854775808]
  /\ -9223372036854775808 <> 8796093022208 * (1024 * 1024).
Proof. split; [vm_compute; reflexivity | lia]. Qed.

Lemma debugMerge_target_size_bytes_witness :
  (- 2^43 <= 2000 < 2^43)
  /\ map (fun c => snd (fst c))
       (doMergeCalls
          (calls (run (scripted (Ok "/data/index") ("", nil))
                    (debugMergeExec (mkMergeVars false 2000 "/data/index" false) []) [])))
     = [2097152000]
  /\ targetSize (cells sampleMerge) = 2000.
Proof.
  split; [lia |].
  apply (debugMerge_target_size_bytes sampleGetenvInt64 sampleGetenvString false
           "/home/zoekt/.zoekt" (list string) (scripted (Ok "/data/index") ("", nil)) []
           (mkMergeVars false 2000 "/data/index" false) []).
  cbn. lia.
Defined.



(** C9, as the claim has it, fails when the server cannot be constructed:
    "-1" parses as -1, and [forceIndex] is not called. *)
Lemma debugIndex_negative_id_no_server :
  strconv.Atoi "-1" = (-1, nil)
  /\ forceIndexCalls
       (calls (run (scripted (Err (New "no index directory")) ("indexed", nil))
                 (debugIndexExec tt ["-1"]) []))
     = []
  /\ returned (run (scripted (Err (New "no index directory")) ("indexed", nil))
                 (debugIndexExec tt ["-1"]) [])
     = Some (New "no index directory").
Proof. repeat split. Qed.

Lemma debugIndex_negative_id_wraps_witness :
  strconv.Atoi "-1" = (-1, nil)
  /\ -1 < 0
  /\ fst (scripted (Ok "/data/index") ("indexed", nil) (newServer tt) []) = Ok "/data/index"
  /\ forceIndexCalls
       (calls (run (scripted (Ok "/data/index") ("indexed", nil))
                 (debugIndexExec tt ["-1"]) []))
     = [("/data/index", 4294967295)].
Proof.
  split; [reflexivity |]. split; [lia |]. split; [reflexivity |].
  apply (debugIndex_negative_id_wraps (list string)
           (scripted (Ok "/data/index") ("indexed", nil)) [] tt "-1" [] (-1) "/data/index");
    [reflexivity | lia | reflexivity].
Defined.

(** C10 at a [forceIndex] that returns a message and an error: the message
    is logged and the error returned. *)
Example debugIndex_logs_failed_index :
  run (scripted (Ok "/data/index") ("index failed", Some (New "disk full")))
    (debugIndexExec tt ["7"]) []
  = (Some (New "disk full"),
     ["index failed"],
     [Event (newServer tt) (Ok "/data/index");
      Event (forceIndex "/data/index" 7) ("index failed", Some (New "disk full"));
      Event (log_Println "index failed") tt]).
Proof. reflexivity. Qed.

(** C7, as the claim has it, fails at meta (and at trigrams): no flag set. *)
Lemma debugMeta_has_no_flag_set :
  exists c, In c (Subcommands sampleDebug) /\ Name c = "meta" /\ FlagSet c = None.
Proof. exists debugMeta. split; [cbn; tauto | split; reflexivity]. Qed.

(** C8, as the claim has it, fails at a host name with a control byte (here
    a tab): the URL does not parse and no request is made. *)
Lemma debugQueue_no_request :
  let v := mkQueueVars ("local" +:+ String.String "009" "host") 6072 in
  let o := run (scripted (Ok "/data/index") ("", nil))
             (debugQueueExec sampleParseRest sampleSetFragment (fun u => u) v []) [] in
  requests (calls o) = []
  /\ returned o
     = Some (Errorf "parsing URL %q: %s"
               [opString (queueURL v);
                opError (urlError "parse" (queueURL v)
                           (New "net/url: invalid control character in URL"))]).
Proof. split; vm_compute; reflexivity. Qed.

(** [debug queue] with its flags at their defaults. *)
Example debugQueue_default_run :
  let o := run (scripted (Ok "/data/index") ("", nil))
             (debugQueueExec sampleParseRest sampleSetFragment (fun u => u)
                (mkQueueVars "localhost" 6072) []) [] in
  map (fun r => (http.Method r, http.reqURL r)) (requests (calls o))
  = [("GET", "http://localhost:6072/debug/queue")]
  /\ returned o = nil.
Proof. split; vm_compute; reflexivity. Qed.

(** The engine at the example of the specification: shards of 10, 15, 80
    and 5 MB against a target of 20 MB. *)
Example Plan_first_fit :
  let shard (path : string) (size repo : Z) := ShardMergeEngine.mkShardMeta path size [repo] 0 in
  map (fun b => map ShardMergeEngine.Size (ShardMergeEngine.InputShards b))
    (ShardMergeEngine.Bins
       (ShardMergeEngine.Plan sampleCompound
          [shard "a" 10 1; shard "b" 15 2; shard "c" 80 3; shard "d" 5 4] 20 false))
  = [[10; 5]; [15]; [80]].
Proof. reflexivity. Qed.

(** C2 at the sample store: [debug merge -simulate] reports the merge of the
    three shards and leaves them where they are; without the flag the same
    invocation replaces them by the compound shard. *)
Example debugMerge_simulated_run :
  let o := run sampleEngine
             (debugMergeExec (mkMergeVars true 2000 "/data/index" false) [])
             ([], mkMergeWorld sampleStore []) in
  store (snd (world o)) = sampleStore
  /\ reported (snd (world o))
     = [[ShardMergeEngine.mkBinReport "compound-c.zoekt" ["c.zoekt"; "a.zoekt"; "b.zoekt"] nil]]
  /\ returned o = nil.
Proof. vm_compute. repeat split. Qed.

Example debugMerge_real_run :
  let o := run sampleEngine
             (debugMergeExec (mkMergeVars false 2000 "/data/index" false) [])
             ([], mkMergeWorld sampleStore []) in
  store (snd (world o))
  = {[ "/data/index" := {[ "compound-c.zoekt" := "ccccccccccccaaaabb" ]} ]}
  /\ reported (snd (world o))
     = [[ShardMergeEngine.mkBinReport "compound-c.zoekt" ["c.zoekt"; "a.zoekt"; "b.zoekt"] nil]]
  /\ returned o = nil.
Proof. vm_compute. repeat split. Qed.

(** On a full disk the invocation without the flag fails at its one bin:
    the shards stay, the failure is reported and returned; simulated, the
    same invocation reports the bin as merged and returns nil. *)
Example debugMerge_full_disk_run :
  let o (sim : bool) :=
    run sampleFullDisk
      (debugMergeExec (mkMergeVars sim 2000 "/data/index" false) [])
      ([], mkMergeWorld sampleStore []) in
  store (snd (world (o false))) = sampleStore
  /\ reported (snd (world (o false)))
     = [[ShardMergeEngine.mkBinReport "compound-c.zoekt" ["c.zoekt"; "a.zoekt"; "b.zoekt"]
           (Some (New "write failure"))]]
  /\ returned (o false) = Some (New "write failure")
  /\ reported (snd (world (o true)))
     = [[ShardMergeEngine.mkBinReport "compound-c.zoekt" ["c.zoekt"; "a.zoekt"; "b.zoekt"] nil]]
  /\ returned (o true) = nil.
Proof. vm_compute. repeat split. Qed.

(** X1 at repository 42: [forceIndex] is called for it, its message is
    logged and its error returned. *)
Lemma debugIndex_well_formed_id_witness :
  signedDecimal "42" = Some 42
  /\ inInt 42 = true
  /\ fst (scripted (Ok "/data/index") ("indexed", Some (New "busy")) (newServer tt) [])
     = Ok "/data/index"
  /\ (let o := run (scripted (Ok "/data/index") ("indexed", Some (New "busy")))
                 (debugIndexExec tt ["42"; "43"]) [] in
      forceIndexCalls (calls o) = [("/data/index", 42)]
      /\ logged (calls o) = ["indexed"]
      /\ returned o = Some (New "busy")).
Proof.
  split; [reflexivity |]. split; [reflexivity |]. split; [reflexivity |].
  destruct (debugIndex_well_formed_id (list string)
              (scripted (Ok "/data/index") ("indexed", Some (New "busy"))) [] tt
              "42" ["43"] 42 "/data/index" eq_refl eq_refl eq_refl)
    as (Hcalls & _ & Hlog & Hret).
  split; [exact Hcalls |]. split; [exact Hlog | exact Hret].
Defined.

(** X4 at [1] and [4294967297], which is [2^32 + 1]. *)
Lemma debugIndex_id_modulo_witness :
  signedDecimal "1" = Some 1
  /\ inInt 1 = true
  /\ signedDecimal "4294967297" = Some 4294967297
  /\ inInt 4294967297 = true
  /\ 1 mod 2^32 = 4294967297 mod 2^32
  /\ run (scripted (Ok "/data/index") ("indexed", nil)) (debugIndexExec tt ["1"]) []
     = run (scripted (Ok "/data/index") ("indexed", nil))
         (debugIndexExec tt ["4294967297"; "-v"]) [].
Proof.
  split; [reflexivity |]. split; [reflexivity |]. split; [reflexivity |].
  split; [reflexivity |]. split; [reflexivity |].
  apply (debugIndex_id_modulo (list string)
           (scripted (Ok "/data/index") ("indexed", nil)) [] tt
           "1" "4294967297" [] ["-v"] 1 4294967297);
    reflexivity.
Defined.

(** X10 at an index of the repositories 3 and 5. *)
Lemma debugList_sends_what_list_indexed_prints_witness :
  let h := withIndexed [3; 5] (scripted (Ok "/data/index") ("", nil)) in
  fst (h (newServer tt) []) = Ok "/data/index"
  /\ map snd (sourcegraphCalls
                (calls (run h (debugListExec (fun s => s) (tt, false) []) [])))
     = [printed (calls (run h (debugListIndexedExec (fun s => s) tt []) []))]
  /\ printed (calls (run h (debugListIndexedExec (fun s => s) tt []) [])) = [3; 5].
Proof.
  split; [reflexivity |]. split; [| reflexivity].
  apply (debugList_sends_what_list_indexed_prints (fun s => s) (list string)
           (withIndexed [3; 5] (scripted (Ok "/data/index") ("", nil))) [] tt [] []
           "/data/index").
  reflexivity.
Defined.

(** X15 at a host name with a tab. *)
Lemma debugQueue_control_byte_hostname_witness :
  let v := mkQueueVars ("local" +:+ String.String "009" "host#1") 6072 in
  let o := run (scripted (Ok "/data/index") ("", nil))
             (debugQueueExec sampleParseRest sampleSetFragment (fun u => u) v []) [] in
  url.stringContainsCTLByte (fst (fst (strings.Cut (hostname v) "#"))) = true
  /\ calls o = []
  /\ world o = [].
Proof.
  split; [reflexivity |].
  destruct (debugQueue_control_byte_hostname sampleParseRest sampleSetFragment (fun u => u)
              (list string) (scripted (Ok "/data/index") ("", nil)) []
              (mkQueueVars ("local" +:+ String.String "009" "host#1") 6072) [] eq_refl)
    as (Hcalls & Hworld & _).
  split; [exact Hcalls | exact Hworld].
Defined.

(** X16 at the default host name and port. *)
Lemma debugQueue_address_parsed_whole_witness :
  let v := mkQueueVars "localhost" 6072 in
  snd (strings.Cut (hostname v) "#") = false
  /\ url.stringContainsCTLByte (hostname v) = false
  /\ url.Parse sampleParseRest sampleSetFragment (queueURL v)
     = Ok "http://localhost:6072/debug/queue".
Proof.
  split; [reflexivity |]. split; [reflexivity |].
  rewrite (debugQueue_address_parsed_whole sampleParseRest sampleSetFragment
             (mkQueueVars "localhost" 6072) eq_refl eq_refl).
  reflexivity.
Defined.

(** C6 at the sample server, at the time 10: c comes first, then a, whose
    age is counted from 0 and whose branches are those of its update at 3,
    then b, and d, which is not on the queue, last. *)
Example debugQueue_listing_run :
  copied
    (calls
       (run sampleQueueServer
          (debugQueueExec sampleParseRest sampleSetFragment (fun u => u)
             (mkQueueVars "localhost" 6072) [])
          ([], sampleServer)))
  = [ IndexingQueue.joinWith (String "010" EmptyString)
        [ "Position Name ID IsOnQueue Age Branches";
          "0 c 3 true 8s main@c0,dev@c1";
          "1 a 1 true 10s main@a1";
          "2 b 2 true 9s main@b0";
          "3 d 4 false - main@d0" ] ].
Proof. vm_compute. reflexivity. Qed.
